(** * DFA simulator and URL validator: a shallow embedding

    The development follows [dfa_simulator.py] (class [DFA] and
    [create_dfa_interactive]) and [url_validator.py] (class [UrlDFA], with
    [validate_url] and [analyze_url_components]).

    Modelling conventions.
    - A Python [str] is a [string], its characters are [ascii] values;
      iterating over it yields its one-character strings ([chars]).
    - A Python [set] of strings is a [gset string]; a [dict] keyed by
      [(state, symbol)] tuples is a [gmap (string * string) string].
      Iterating over a set or a dict visits [elements] / [map_to_list].
    - A method is a state-passing function over the object it is called on
      ([M S A]): it receives [self], and returns [self] as it is after the
      call together with either a value or the exception raised.
    - A function that prompts and prints is a state-passing function over
      the console ([IO A]): the lines still to be read and the text
      written so far. *)

From Stdlib Require Import Ascii String.
From stdpp Require Import gmap strings list fin_maps.

Local Open Scope string_scope.
Local Open Scope list_scope.
Local Open Scope nat_scope.

(** ** Exceptions and the method monad *)

Inductive exn : Type :=
| ValueError (msg : string)
| KeyError (key : string * string)
| FileNotFoundError (filename : string).

Inductive result (A : Type) : Type :=
| Ok (a : A)
| Raise (e : exn).
Arguments Ok {A} a.
Arguments Raise {A} e.

#[export] Instance result_ret : MRet result := λ A a, Ok a.
#[export] Instance result_bind : MBind result := λ A B k r,
  match r with
  | Ok a => k a
  | Raise e => Raise e
  end.

Definition M (S A : Type) : Type := S → S * result A.

Definition raise {S A : Type} (e : exn) : M S A := λ σ, (σ, Raise e).
Definition get {S : Type} : M S S := λ σ, (σ, Ok σ).

#[export] Instance M_ret {S : Type} : MRet (M S) := λ A a σ, (σ, Ok a).
#[export] Instance M_bind {S : Type} : MBind (M S) := λ A B k m σ,
  match m σ with
  | (σ', Ok a) => k a σ'
  | (σ', Raise e) => (σ', Raise e)
  end.

(** ** Python built-ins used by the two classes *)

(** [for c in s] over a [str]: the one-character strings of [s]. *)
Fixpoint chars (s : string) : list string :=
  match s with
  | EmptyString => []
  | String c s' => String c EmptyString :: chars s'
  end.

(** [set(s)] for a [str] [s]. *)
Definition set_of_str (s : string) : gset string := list_to_set (chars s).

(** [sub in s] for two [str]: the substring test. *)
Fixpoint str_in (sub s : string) : bool :=
  String.prefix sub s ||
  match s with
  | EmptyString => false
  | String _ s' => str_in sub s'
  end.

(** [for x in xs: body] threading the variables the body assigns. *)
Definition for_in {A B : Type} (xs : list A) (body : A → B → B) (b : B) : B :=
  foldl (λ b x, body x b) b xs.

(** [k in d] and [d[k]] for a [dict]. *)
Definition dict_contains {K V} `{Countable K} (d : gmap K V) (k : K) : bool :=
  match d !! k with Some _ => true | None => false end.

Definition getitem {S : Type} (d : gmap (string * string) string)
    (k : string * string) : M S string :=
  match d !! k with
  | Some v => mret v
  | None => raise (KeyError k)
  end.

(** [s.split(sep)] for a one-character separator: the pieces between the
    occurrences of [sep], one more than there are occurrences. *)
Fixpoint split (sep : ascii) (s : string) : list string :=
  match s with
  | EmptyString => [EmptyString]
  | String c s' =>
      if Ascii.eqb c sep then EmptyString :: split sep s'
      else match split sep s' with
           | [] => [String c EmptyString]
           | w :: ws => String c w :: ws
           end
  end.

(** ** dfa_simulator.py *)

Module dfa_simulator.

Record DFA : Type := mkDFA {
  states : gset string;
  alphabet : gset string;
  transition_function : gmap (string * string) string;
  start_state : string;
  accept_states : gset string
}.

(** [DFA.__init__]: the five arguments are stored as given. *)
Definition DFA_init (states alphabet : gset string)
    (transition_function : gmap (string * string) string)
    (start_state : string) (accept_states : gset string) : result DFA :=
  Ok (mkDFA states alphabet transition_function start_state accept_states).

(** The message of the [ValueError] of [process_string]. *)
Definition UnknownSymbol (symbol : string) : exn :=
  ValueError ("Symbol '" +:+ symbol +:+ "' not in alphabet").

(** The [for symbol in input_string] loop of [process_string], on the
    symbols still to read. *)
Fixpoint process_loop (input : list string) (current_state : string)
    (state_sequence : list string) : M DFA (bool * list string) :=
  match input with
  | [] =>
      self ← get;
      mret (bool_decide (current_state ∈ accept_states self), state_sequence)
  | symbol :: rest =>
      self ← get;
      if negb (bool_decide (symbol ∈ alphabet self)) then
        raise (UnknownSymbol symbol)
      else if negb (dict_contains (transition_function self)
                      (current_state, symbol)) then
        mret (false, state_sequence)
      else
        next ← getitem (transition_function self) (current_state, symbol);
        process_loop rest next (state_sequence ++ [next])
  end.

(** [DFA.process_string]. *)
Definition process_string (input_string : string)
    : M DFA (bool * list string) :=
  self ← get;
  let current_state := start_state self in
  process_loop (chars input_string) current_state [current_state].

(** *** Persistence *)

(** The dictionary handed to [json.dump] and received from [json.load].
    The JSON text in between is the [json] module's business: a dictionary
    of strings and lists of strings is read back as it was written. *)
Record Document : Type := mkDocument {
  doc_states : list string;
  doc_alphabet : list string;
  doc_transition_function : gmap string string;
  doc_start_state : string;
  doc_accept_states : list string
}.

(** [f"{state},{symbol}"]. *)
Definition composite_key (k : string * string) : string :=
  k.1 +:+ "," +:+ k.2.

(** [dfa_dict] of [save_to_file]. *)
Definition encode (self : DFA) : Document :=
  {| doc_states := elements (states self);
     doc_alphabet := elements (alphabet self);
     doc_transition_function :=
       for_in (map_to_list (transition_function self))
         (λ '(k, next_state) d, <[composite_key k := next_state]> d) ∅;
     doc_start_state := start_state self;
     doc_accept_states := elements (accept_states self) |}.

(** [state, symbol = key.split(",")]: unpacking needs exactly two pieces. *)
Definition unpack2 (pieces : list string) : result (string * string) :=
  match pieces with
  | [state; symbol] => Ok (state, symbol)
  | [] | [_] =>
      Raise (ValueError "not enough values to unpack (expected 2, got 1)")
  | _ => Raise (ValueError "too many values to unpack (expected 2)")
  end.

(** The [for key, value in ....items()] loop of [load_from_file]. *)
Fixpoint load_transitions (items : list (string * string))
    (transition_function : gmap (string * string) string)
    : result (gmap (string * string) string) :=
  match items with
  | [] => Ok transition_function
  | (key, value) :: rest =>
      k ← unpack2 (split "," key);
      load_transitions rest (<[k := value]> transition_function)
  end.

(** [load_from_file] once [json.load] has returned [dfa_dict]. *)
Definition decode (dfa_dict : Document) : result DFA :=
  let states := list_to_set (doc_states dfa_dict) in
  let alphabet := list_to_set (doc_alphabet dfa_dict) in
  transition_function ←
    load_transitions (map_to_list (doc_transition_function dfa_dict)) ∅;
  let start_state := doc_start_state dfa_dict in
  let accept_states := list_to_set (doc_accept_states dfa_dict) in
  DFA_init states alphabet transition_function start_state accept_states.

(** The files the two methods write and read, by name. *)
Definition save_to_file (filename : string)
    : M (DFA * gmap string Document) unit :=
  λ '(self, files), ((self, <[filename := encode self]> files), Ok tt).

Definition load_from_file (filename : string)
    : M (gmap string Document) DFA :=
  λ files,
    match files !! filename with
    | None => (files, Raise (FileNotFoundError filename))
    | Some dfa_dict => (files, decode dfa_dict)
    end.

End dfa_simulator.

(** ** url_validator.py *)

Module url_validator.

Record UrlDFA : Type := mkUrlDFA {
  states : gset string;
  alphabet : gset string;
  transition_function : gmap (string * string) string;
  start_state : string;
  accept_states : gset string
}.

Definition alnum : string :=
  "abcdefghijklmnopqrstuvwxyzABCDEFGHIJKLMNOPQRSTUVWXYZ0123456789".

(** [UrlDFA.__init__]. *)
Definition UrlDFA_init : UrlDFA :=
  let states : gset string :=
    {[ "start"; "scheme"; "scheme_separator"; "authority"; "path"; "query";
       "fragment"; "rejected" ]} in
  let alphabet := set_of_str (alnum +:+ "-._~:/?#[]@!$&'()*+,;=%") in
  let tf : gmap (string * string) string := ∅ in
  let tf := for_in (elements alphabet) (λ char tf,
    if bool_decide (char = "h") then <[("start", char) := "scheme"]> tf
    else <[("start", char) := "rejected"]> tf) tf in
  let tf := <[("scheme", "t") := "scheme"]> tf in
  let tf := <[("scheme", "p") := "scheme"]> tf in
  let tf := <[("scheme", "s") := "scheme"]> tf in
  let tf := <[("scheme", ":") := "scheme_separator"]> tf in
  let tf := for_in (elements alphabet) (λ char tf,
    if negb (str_in char "tps:") then <[("scheme", char) := "rejected"]> tf
    else tf) tf in
  let tf := <[("scheme_separator", "/") := "scheme_separator"]> tf in
  let tf := for_in (elements alphabet) (λ char tf,
    if negb (str_in char "/:")
    then <[("scheme_separator", char) := "authority"]> tf
    else tf) tf in
  let tf := for_in (elements alphabet) (λ char tf,
    if str_in char (alnum +:+ "-._")
    then <[("authority", char) := "authority"]> tf
    else if bool_decide (char = "/") then <[("authority", char) := "path"]> tf
    else if bool_decide (char = "?") then <[("authority", char) := "query"]> tf
    else if bool_decide (char = "#")
    then <[("authority", char) := "fragment"]> tf
    else <[("authority", char) := "rejected"]> tf) tf in
  let tf := for_in (elements alphabet) (λ char tf,
    if str_in char (alnum +:+ "-._~:/@!$&'()*+,;=%")
    then <[("path", char) := "path"]> tf
    else if bool_decide (char = "?") then <[("path", char) := "query"]> tf
    else if bool_decide (char = "#") then <[("path", char) := "fragment"]> tf
    else <[("path", char) := "rejected"]> tf) tf in
  let tf := for_in (elements alphabet) (λ char tf,
    if str_in char (alnum +:+ "-._~:/?@!$&'()*+,;=%")
    then <[("query", char) := "query"]> tf
    else if bool_decide (char = "#") then <[("query", char) := "fragment"]> tf
    else <[("query", char) := "rejected"]> tf) tf in
  let tf := for_in (elements alphabet) (λ char tf,
    if str_in char (alnum +:+ "-._~:/?@!$&'()*+,;=%#")
    then <[("fragment", char) := "fragment"]> tf
    else <[("fragment", char) := "rejected"]> tf) tf in
  mkUrlDFA states alphabet tf "start"
    {[ "authority"; "path"; "query"; "fragment" ]}.

(** The [for char in url] loop of [validate_url], on the characters still
    to read. *)
Fixpoint validate_loop (url : list string) (current_state : string)
    (state_sequence : list string) : M UrlDFA (bool * list string) :=
  match url with
  | [] =>
      self ← get;
      mret (bool_decide (current_state ∈ accept_states self), state_sequence)
  | char :: rest =>
      self ← get;
      if negb (bool_decide (char ∈ alphabet self)) then
        mret (false, state_sequence ++ ["rejected"])
      else if negb (dict_contains (transition_function self)
                      (current_state, char)) then
        mret (false, state_sequence ++ ["rejected"])
      else
        next ← getitem (transition_function self) (current_state, char);
        let state_sequence := state_sequence ++ [next] in
        if bool_decide (next = "rejected") then mret (false, state_sequence)
        else validate_loop rest next state_sequence
  end.

(** [UrlDFA.validate_url]. *)
Definition validate_url (url : string) : M UrlDFA (bool * list string) :=
  self ← get;
  let current_state := start_state self in
  validate_loop (chars url) current_state [current_state].

End url_validator.

(** ** More Python built-ins *)

(** The first [n] characters of [s], and [s] without them. *)
Fixpoint str_take (n : nat) (s : string) : string :=
  match n, s with
  | S n', String c s' => String c (str_take n' s')
  | _, _ => EmptyString
  end.

Fixpoint str_drop (n : nat) (s : string) : string :=
  match n, s with
  | S n', String _ s' => str_drop n' s'
  | _, _ => s
  end.

(** A bound of a slice, brought into [0 .. len]: a negative index counts
    from the end. *)
Definition slice_index (len i : Z) : Z :=
  if (i <? 0)%Z then Z.max 0 (i + len) else Z.min i len.

(** [s[start:stop]], either bound possibly left out. *)
Definition slice (s : string) (start stop : option Z) : string :=
  let len := Z.of_nat (String.length s) in
  let lo := from_option (slice_index len) 0%Z start in
  let hi := from_option (slice_index len) len stop in
  str_take (Z.to_nat (hi - lo)) (str_drop (Z.to_nat lo) s).

(** [s.find(sub)]: the index of the first occurrence of [sub] in [s], or
    [-1]; [find_from] carries the index of the position looked at. *)
Fixpoint find_from (sub s : string) (i : Z) : Z :=
  if String.prefix sub s then i
  else match s with
       | EmptyString => (-1)%Z
       | String _ s' => find_from sub s' (i + 1)%Z
       end.

Definition find (sub s : string) : Z := find_from sub s 0%Z.

(** [len(s)]. *)
Definition len (s : string) : Z := Z.of_nat (String.length s).

(** The characters [str.isspace] holds of, among the first 256. *)
Definition is_space (c : ascii) : bool :=
  let n := nat_of_ascii c in
  (9 <=? n) && (n <=? 13) || (28 <=? n) && (n <=? 32)
  || (n =? 133) || (n =? 160).

(** [s.lstrip()], [s.rstrip()] and [s.strip()]. *)
Fixpoint lstrip (s : string) : string :=
  match s with
  | EmptyString => EmptyString
  | String c s' => if is_space c then lstrip s' else s
  end.

Fixpoint rstrip (s : string) : string :=
  match s with
  | EmptyString => EmptyString
  | String c s' =>
      match rstrip s' with
      | EmptyString => if is_space c then EmptyString else String c EmptyString
      | r => String c r
      end
  end.

Definition strip (s : string) : string := rstrip (lstrip s).

Definition newline : string := String "010"%char EmptyString.

(** *** The console *)

(** The lines still to be read from standard input, and the pieces of text
    written to standard output so far. *)
Record console : Type := mkConsole {
  stdin : list string;
  stdout : list string
}.

Inductive io_exn : Type :=
| EOFError
| Propagated (e : exn).

Inductive outcome (A : Type) : Type :=
| Returned (a : A)
| Failed (e : io_exn).
Arguments Returned {A} a.
Arguments Failed {A} e.

Definition IO (A : Type) : Type := console → console * outcome A.

#[export] Instance IO_ret : MRet IO := λ A a c, (c, Returned a).
#[export] Instance IO_bind : MBind IO := λ A B k m c,
  match m c with
  | (c', Returned a) => k a c'
  | (c', Failed e) => (c', Failed e)
  end.

(** [print(s)]. *)
Definition print (s : string) : IO unit :=
  λ c, (mkConsole (stdin c) (stdout c ++ [s +:+ newline]), Returned tt).

(** [input(prompt)]: the prompt is written, then a line is read; at the end
    of the input [EOFError] is raised. *)
Definition input (prompt : string) : IO string :=
  λ c, match stdin c with
       | [] => (mkConsole [] (stdout c ++ [prompt]), Failed EOFError)
       | line :: rest => (mkConsole rest (stdout c ++ [prompt]), Returned line)
       end.

(** The value or the exception of a call that does no input or output. *)
Definition call {A : Type} (r : result A) : IO A :=
  λ c, match r with
       | Ok a => (c, Returned a)
       | Raise e => (c, Failed (Propagated e))
       end.

(** [for x in xs: body] when the body reads or writes. *)
Fixpoint for_in_io {A B : Type} (xs : list A) (body : A → B → IO B) (b : B)
    : IO B :=
  match xs with
  | [] => mret b
  | x :: xs' => b' ← body x b; for_in_io xs' body b'
  end.

(** ** dfa_simulator.py: [create_dfa_interactive] *)

Module dfa_simulator_interactive.
Import dfa_simulator.

(** The [while True] loop that asks for the start state, over the lines
    still to be read: each round writes the prompt and reads a line, and
    either leaves the loop with it or prints the error and goes on. *)
Fixpoint read_start_state (states : gset string) (lines : list string)
    (out : list string) : console * outcome string :=
  let out := out ++ [newline +:+ "Enter start state: "] in
  match lines with
  | [] => (mkConsole [] out, Failed EOFError)
  | start_state :: rest =>
      if bool_decide (start_state ∈ states)
      then (mkConsole rest out, Returned start_state)
      else read_start_state states rest
             (out ++ ["Error: Start state must be in the set of states."
                      +:+ newline])
  end.

(** The body of the two nested [for] loops: one transition is asked for. *)
Definition ask_transition (states : gset string) (state symbol : string)
    (transition_function : gmap (string * string) string)
    : IO (gmap (string * string) string) :=
  next_state ← input ("δ(" +:+ state +:+ ", " +:+ symbol +:+ ") = ");
  if bool_decide (next_state ∈ states) then
    mret (<[(state, symbol) := next_state]> transition_function)
  else
    print ("Error: " +:+ next_state
           +:+ " is not a valid state. Using a trap state.");;
    mret (<[(state, symbol) := "trap"]> transition_function).

(** [create_dfa_interactive]. *)
Definition create_dfa_interactive : IO DFA :=
  print "=== DFA Creator ===";;
  states_input ← input "Enter states (comma-separated): ";
  let states : gset string :=
    list_to_set (strip <$> split "," states_input) in
  alphabet_input ← input "Enter alphabet symbols (comma-separated): ";
  let alphabet : gset string :=
    list_to_set (strip <$> split "," alphabet_input) in
  let transition_function : gmap (string * string) string := ∅ in
  print (newline +:+ "Define transition function:");;
  transition_function ←
    for_in_io (elements states) (λ state transition_function,
      for_in_io (elements alphabet) (λ symbol transition_function,
        ask_transition states state symbol transition_function)
        transition_function)
      transition_function;
  start_state ← (λ c, read_start_state states (stdin c) (stdout c));
  accept_input ← input (newline +:+ "Enter accept states (comma-separated): ");
  let accept_states : gset string :=
    list_to_set (strip <$> split "," accept_input) in
  accept_states ←
    (if negb (bool_decide (accept_states ⊆ states)) then
       print "Warning: Some accept states are not in the set of states.";;
       mret (accept_states ∩ states)
     else mret accept_states);
  call (DFA_init states alphabet transition_function start_state accept_states).

End dfa_simulator_interactive.

(** ** url_validator.py: [analyze_url_components] *)

Module url_validator_components.
Import url_validator.

(** The dictionary [components], with its five keys. *)
Record Components : Type := mkComponents {
  scheme : string;
  authority : string;
  path : string;
  query : string;
  fragment : string
}.

(** The loops [for pos in [...]: if pos != -1 and pos < end: end = pos]. *)
Definition earliest (positions : list Z) (end_ : Z) : Z :=
  for_in positions (λ pos end_,
    if negb (pos =? -1)%Z && (pos <? end_)%Z then pos else end_) end_.

(** [UrlDFA.analyze_url_components]. *)
Definition analyze_url_components (url : string)
    : M UrlDFA (option Components) :=
  '(valid, state_sequence) ← validate_url url;
  if negb valid then mret None
  else
    let scheme_end := find "://" url in
    if negb (scheme_end =? -1)%Z then
      let scheme := slice url None (Some scheme_end) in
      let url_without_scheme := slice url (Some (scheme_end + 3)%Z) None in
      let path_start := find "/" url_without_scheme in
      let query_start := find "?" url_without_scheme in
      let fragment_start := find "#" url_without_scheme in
      let authority_end :=
        earliest [path_start; query_start; fragment_start]
          (len url_without_scheme) in
      let authority := slice url_without_scheme None (Some authority_end) in
      let path :=
        if negb (path_start =? -1)%Z then
          let path_end :=
            earliest [query_start; fragment_start] (len url_without_scheme) in
          slice url_without_scheme (Some path_start) (Some path_end)
        else EmptyString in
      let query :=
        if negb (query_start =? -1)%Z then
          let query_end :=
            if negb (fragment_start =? -1)%Z then fragment_start
            else len url_without_scheme in
          slice url_without_scheme (Some query_start) (Some query_end)
        else EmptyString in
      let fragment :=
        if negb (fragment_start =? -1)%Z then
          slice url_without_scheme (Some fragment_start) None
        else EmptyString in
      mret (Some (mkComponents scheme authority path query fragment))
    else mret None.

End url_validator_components.

(** ** Vocabulary of the statements *)

(** The states of the URL grammar other than the sink. *)
Definition non_sink_states : list string :=
  ["start"; "scheme"; "scheme_separator"; "authority"; "path"; "query";
   "fragment"].

(** The four invariants of the data model: the start state and the accept
    states are states, and every transition goes from a state, on a symbol
    of the alphabet, to a state. [DFA.__init__] does not check them. *)
Definition structurally_valid (a : dfa_simulator.DFA) : Prop :=
  dfa_simulator.start_state a ∈ dfa_simulator.states a ∧
  dfa_simulator.accept_states a ⊆ dfa_simulator.states a ∧
  ∀ state symbol next_state,
    dfa_simulator.transition_function a !! (state, symbol) = Some next_state →
    state ∈ dfa_simulator.states a ∧
    symbol ∈ dfa_simulator.alphabet a ∧
    next_state ∈ dfa_simulator.states a.

(** The string holds no "," (the separator of the composite keys). *)
Fixpoint comma_free (s : string) : bool :=
  match s with
  | EmptyString => true
  | String c s' => negb (Ascii.eqb c ",") && comma_free s'
  end.

(** The number of occurrences of the character [c] in [s]. *)
Fixpoint count_char (c : ascii) (s : string) : nat :=
  match s with
  | EmptyString => 0
  | String c' s' => (if Ascii.eqb c' c then 1 else 0) + count_char c s'
  end.

(** [visited] is the list of states that the transitions lead through from
    [q], one state for each symbol of a prefix of [symbols]. *)
Fixpoint follows (transition_function : gmap (string * string) string)
    (q : string) (symbols visited : list string) : Prop :=
  match visited, symbols with
  | [], _ => True
  | q' :: visited', symbol :: symbols' =>
      transition_function !! (q, symbol) = Some q' ∧
      follows transition_function q' symbols' visited'
  | _ :: _, [] => False
  end.

(** The string is made of letters, digits, "-", "." and "_" only. *)
Fixpoint host_chars (s : string) : bool :=
  match s with
  | EmptyString => true
  | String c s' =>
      str_in (String c EmptyString) (url_validator.alnum +:+ "-._")
      && host_chars s'
  end.

Import dfa_simulator.

(** * Properties *)

(** ** Strings *)

Lemma chars_app (s1 s2 : string) : chars (s1 +:+ s2) = chars s1 ++ chars s2.
Proof. induction s1 as [|c s1 IH]; simpl; [done | by rewrite IH]. Qed.

Lemma length_chars (s : string) : length (chars s) = String.length s.
Proof. induction s as [|c s IH]; simpl; [done | by rewrite IH]. Qed.

(** Unfolds the monad operations of a method applied to its object. *)
Ltac method_unfold :=
  cbn; unfold mbind, M_bind, get, dict_contains, getitem; cbn.

(** ** The execution engine: [DFA.process_string] *)

Section engine.
Variable a : DFA.

(** One step of the loop on a symbol of the alphabet with a transition. *)
Lemma process_loop_step symbol rest cur seq next :
  symbol ∈ alphabet a →
  transition_function a !! (cur, symbol) = Some next →
  process_loop (symbol :: rest) cur seq a
  = process_loop rest next (seq ++ [next]) a.
Proof.
  intros Hin Hnext. method_unfold.
  rewrite bool_decide_true by done. by rewrite Hnext.
Qed.

Lemma process_loop_undefined symbol rest cur seq :
  symbol ∈ alphabet a →
  transition_function a !! (cur, symbol) = None →
  process_loop (symbol :: rest) cur seq a = (a, Ok (false, seq)).
Proof.
  intros Hin Hnone. method_unfold.
  rewrite bool_decide_true by done. by rewrite Hnone.
Qed.

Lemma process_loop_unknown symbol rest cur seq :
  symbol ∉ alphabet a →
  process_loop (symbol :: rest) cur seq a = (a, Raise (UnknownSymbol symbol)).
Proof. intros Hin. method_unfold. by rewrite bool_decide_false. Qed.

(** No path of the loop assigns to [self]. *)
Lemma process_loop_self input cur seq :
  (process_loop input cur seq a).1 = a.
Proof.
  revert cur seq. induction input as [|symbol rest IH]; intros cur seq.
  - reflexivity.
  - destruct (decide (symbol ∈ alphabet a)) as [Hin|Hin];
      [|by rewrite process_loop_unknown].
    destruct (transition_function a !! (cur, symbol)) as [next|] eqn:Hnext.
    + rewrite (process_loop_step _ _ _ _ next) by done. apply IH.
    + by rewrite process_loop_undefined.
Qed.

(** A returned trace extends the one the loop started from, by at most
    one state per symbol. *)
Lemma process_loop_length input cur seq b tr :
  process_loop input cur seq a = (a, Ok (b, tr)) →
  length tr ≤ length seq + length input.
Proof.
  revert cur seq. induction input as [|symbol rest IH]; intros cur seq.
  - cbn. intros [= _ <-]. lia.
  - destruct (decide (symbol ∈ alphabet a)) as [Hin|Hin];
      [|by rewrite process_loop_unknown].
    destruct (transition_function a !! (cur, symbol)) as [next|] eqn:Hnext.
    + rewrite (process_loop_step _ _ _ _ next) by done.
      intros H%IH. rewrite length_app in H. simpl in *. lia.
    + rewrite process_loop_undefined by done. intros [= _ <-]. simpl. lia.
Qed.

End engine.


Lemma process_string_self (a : DFA) (input_string : string) :
  (process_string input_string a).1 = a.
Proof. unfold process_string. method_unfold. apply process_loop_self. Qed.



(** C1, as the code has it: [DFA.__init__] checks nothing. Whatever the
    five arguments are, construction returns the automaton that holds them,
    and never fails. *)
Theorem DFA_init_unvalidated (states alphabet : gset string)
    (transition_function : gmap (string * string) string)
    (start_state : string) (accept_states : gset string) :
  ∃ a : DFA,
    DFA_init states alphabet transition_function start_state accept_states
    = Ok a ∧
    dfa_simulator.states a = states ∧
    dfa_simulator.alphabet a = alphabet ∧
    dfa_simulator.transition_function a = transition_function ∧
    dfa_simulator.start_state a = start_state ∧
    dfa_simulator.accept_states a = accept_states.
Proof. eexists. split; [reflexivity | done]. Qed.

(** C1, counterexample: a tuple that breaks all four invariants (start state
    and accept state outside the state set, a transition between unknown
    states on an unknown symbol) is constructed without error. *)
Lemma DFA_init_accepts_inconsistent :
  let states : gset string := {["q0"]} in
  let alphabet : gset string := {["a"]} in
  let transition_function : gmap (string * string) string :=
    {[ ("x", "y") := "z" ]} in
  ("s" ∉ states) ∧ ({["q1"]} ⊈ states) ∧
  ("x" ∉ states) ∧ ("z" ∉ states) ∧ ("y" ∉ alphabet) ∧
  DFA_init states alphabet transition_function "s" {["q1"]}
  = Ok (mkDFA states alphabet transition_function "s" {["q1"]}) ∧
  ∀ e, DFA_init states alphabet transition_function "s" {["q1"]} ≠ Raise e.
Proof.
  cbn zeta. unfold DFA_init.
  repeat (split; [first [reflexivity | set_solver]|]). congruence.
Qed.






(** C6: on the empty input [process_string] returns whether the start state
    is accepting, and the trace that holds the start state alone. *)
Theorem process_string_empty (a : DFA) :
  process_string "" a
  = (a, Ok (bool_decide (start_state a ∈ accept_states a), [start_state a])).
Proof. reflexivity. Qed.

(** C7: [process_string] leaves the automaton as it was, field by field,
    and a second call, on the automaton the first one left, gives the result
    of the first. *)
Theorem process_string_pure (a : DFA) (input_string : string) :
  let a' := (process_string input_string a).1 in
  states a' = states a ∧ alphabet a' = alphabet a ∧
  transition_function a' = transition_function a ∧
  start_state a' = start_state a ∧ accept_states a' = accept_states a ∧
  process_string input_string a' = process_string input_string a.
Proof. cbn zeta. by rewrite process_string_self. Qed.

(** ** The URL validator: [UrlDFA.validate_url] *)

Section validator.
Import url_validator.
Variable U : UrlDFA.

Lemma validate_loop_unknown char rest cur seq :
  char ∉ alphabet U →
  validate_loop (char :: rest) cur seq U
  = (U, Ok (false, seq ++ ["rejected"])).
Proof. intros Hin. method_unfold. by rewrite bool_decide_false. Qed.

Lemma validate_loop_undefined char rest cur seq :
  char ∈ alphabet U →
  transition_function U !! (cur, char) = None →
  validate_loop (char :: rest) cur seq U
  = (U, Ok (false, seq ++ ["rejected"])).
Proof.
  intros Hin Hnone. method_unfold.
  rewrite bool_decide_true by done. by rewrite Hnone.
Qed.

Lemma validate_loop_rejected char rest cur seq :
  char ∈ alphabet U →
  transition_function U !! (cur, char) = Some "rejected" →
  validate_loop (char :: rest) cur seq U
  = (U, Ok (false, seq ++ ["rejected"])).
Proof.
  intros Hin Hnext. method_unfold.
  rewrite bool_decide_true by done. by rewrite Hnext.
Qed.

Lemma validate_loop_step char rest cur seq next :
  char ∈ alphabet U →
  transition_function U !! (cur, char) = Some next →
  next ≠ "rejected" →
  validate_loop (char :: rest) cur seq U
  = validate_loop rest next (seq ++ [next]) U.
Proof.
  intros Hin Hnext Hne. method_unfold.
  rewrite bool_decide_true by done. rewrite Hnext. cbn.
  by rewrite bool_decide_false.
Qed.

(** The two ways the loop ends on [l1], and what each means for the longer
    input [l1 ++ l2]: either it returned [False] inside [l1], with a trace
    whose only "rejected" is the last state, and the longer input gives the
    same; or it read all of [l1] without meeting "rejected", and the
    longer input goes on from the state and the trace reached. *)
Lemma validate_loop_app l1 l2 cur seq :
  "rejected" ∉ seq →
  last seq = Some cur →
  (∃ p, ("rejected" ∉ p) ∧ length p < length seq + length l1 ∧
     validate_loop l1 cur seq U = (U, Ok (false, p ++ ["rejected"])) ∧
     validate_loop (l1 ++ l2) cur seq U = (U, Ok (false, p ++ ["rejected"])))
  ∨ (∃ tr cur', ("rejected" ∉ tr) ∧ length tr = length seq + length l1 ∧
       last tr = Some cur' ∧
       validate_loop l1 cur seq U
       = (U, Ok (bool_decide (cur' ∈ accept_states U), tr)) ∧
       validate_loop (l1 ++ l2) cur seq U = validate_loop l2 cur' tr U).
Proof.
  revert cur seq. induction l1 as [|char rest IH]; intros cur seq Hseq Hlast.
  - right. exists seq, cur. repeat split; [done | simpl; lia | done].
  - assert (length seq < length seq + length (char :: rest)) as Hlt
      by (simpl; lia).
    destruct (decide (char ∈ alphabet U)) as [Hin|Hin]; cbn [app].
    2: { left. exists seq. by rewrite !validate_loop_unknown. }
    destruct (transition_function U !! (cur, char)) as [next|] eqn:Hnext.
    2: { left. exists seq. by rewrite !validate_loop_undefined. }
    destruct (decide (next = "rejected")) as [->|Hne].
    { left. exists seq. by rewrite !validate_loop_rejected. }
    rewrite !(validate_loop_step _ _ _ _ next) by done.
    destruct (IH next (seq ++ [next])) as
      [(p & Hp & Hlen & Hrun & Happ)|(tr & cur' & Htr & Hlen & Hl & Hrun & Happ)].
    + rewrite not_elem_of_app, list_elem_of_singleton. split; [done | congruence].
    + by rewrite last_snoc.
    + left. exists p. repeat split; try done.
      rewrite length_app in Hlen. simpl in *. lia.
    + right. exists tr, cur'. repeat split; try done.
      rewrite length_app in Hlen. simpl in *. lia.
Qed.

Hypothesis start_not_rejected : start_state U ≠ "rejected".

Lemma validate_url_app (url rest : string) :
  (∃ p, ("rejected" ∉ p) ∧ length p ≤ String.length url ∧
     validate_url url U = (U, Ok (false, p ++ ["rejected"])) ∧
     validate_url (url +:+ rest) U = (U, Ok (false, p ++ ["rejected"])))
  ∨ (∃ tr cur, ("rejected" ∉ tr) ∧ length tr = S (String.length url) ∧
       last tr = Some cur ∧
       validate_url url U = (U, Ok (bool_decide (cur ∈ accept_states U), tr)) ∧
       validate_url (url +:+ rest) U = validate_loop (chars rest) cur tr U).
Proof.
  unfold validate_url. method_unfold. rewrite chars_app.
  destruct (validate_loop_app (chars url) (chars rest) (start_state U)
              [start_state U])
    as [(p & Hp & Hlen & Hrun & Happ)|(tr & cur & Htr & Hlen & Hl & Hrun & Happ)].
  - rewrite list_elem_of_singleton. congruence.
  - done.
  - left. exists p. repeat split; try done.
    rewrite length_chars in Hlen. simpl in Hlen. lia.
  - right. exists tr, cur. repeat split; try done.
    rewrite length_chars in Hlen. simpl in Hlen. lia.
Qed.

(** What [validate_url] returns: a verdict and a trace, never an
    exception; "rejected" is at most the last state of the trace, comes
    with the verdict [False], and ends the run. *)
Lemma validate_url_shape (url : string) :
  ∃ b tr, validate_url url U = (U, Ok (b, tr)) ∧
    length tr ≤ S (String.length url) ∧
    (∀ i, tr !! i = Some "rejected" → S i = length tr) ∧
    (∀ i j, tr !! i = Some "rejected" → tr !! j = Some "rejected" → i = j) ∧
    ("rejected" ∈ tr → b = false) ∧
    ("rejected" ∈ tr →
     ∀ rest, validate_url (url +:+ rest) U = (U, Ok (b, tr))).
Proof.
  cut (∃ b tr, validate_url url U = (U, Ok (b, tr)) ∧
         length tr ≤ S (String.length url) ∧
         (∀ i, tr !! i = Some "rejected" → S i = length tr) ∧
         ("rejected" ∈ tr → b = false) ∧
         ("rejected" ∈ tr →
          ∀ rest, validate_url (url +:+ rest) U = (U, Ok (b, tr)))).
  { intros (b & tr & Hrun & Hlen & Hlast & Hb & Hrest).
    exists b, tr. repeat split; try done.
    intros i j Hi%Hlast Hj%Hlast. lia. }
  destruct (validate_url_app url "")
    as [(p & Hp & Hlen & Hrun & _)|(tr & cur & Htr & Hlen & Hl & Hrun & _)].
  - exists false, (p ++ ["rejected"]). split; [done|].
    split; [rewrite length_app; simpl; lia|].
    split; [|split; [done|]].
    + intros i Hi. rewrite length_app. simpl.
      destruct (decide (i < length p)) as [Hlt|Hge].
      * rewrite lookup_app_l in Hi by done.
        destruct Hp. by eapply list_elem_of_lookup_2.
      * apply lookup_lt_Some in Hi. rewrite length_app in Hi.
        simpl in Hi. lia.
    + intros _ rest.
      destruct (validate_url_app url rest)
        as [(p' & _ & _ & Hrun' & Happ)|(tr & cur & Htr & _ & _ & Hrun' & _)].
      * congruence.
      * rewrite Hrun in Hrun'. injection Hrun' as _ <-.
        destruct Htr. set_solver.
  - exists (bool_decide (cur ∈ accept_states U)), tr. split; [done|].
    split; [lia|].
    split; [|split]; [intros i Hi | intros Hin ..].
    + destruct Htr. by eapply list_elem_of_lookup_2.
    + done.
    + done.
Qed.

End validator.

(** ** The URL grammar built by [UrlDFA.__init__] *)

Import url_validator.

Lemma UrlDFA_start_not_rejected : start_state UrlDFA_init ≠ "rejected".
Proof. intros H. vm_compute in H. discriminate H. Qed.

(** The table has an entry for [(q, c)] exactly when the pair is not
    [("scheme_separator", ":")], checked pair by pair. *)
Lemma UrlDFA_table_check :
  forallb (λ q, forallb (λ c,
      bool_decide (is_Some (transition_function UrlDFA_init !! (q, c)) ↔
                   (q, c) ≠ ("scheme_separator", ":")))
    (elements (alphabet UrlDFA_init))) non_sink_states = true.
Proof. vm_compute. reflexivity. Qed.

(** C3, as the code has it: the table built by [UrlDFA.__init__] has an
    entry for every non-sink state and every symbol of the alphabet except
    the pair [("scheme_separator", ":")], which has none. *)
Theorem UrlDFA_table_total_but_one (q c : string) :
  q ∈ non_sink_states →
  c ∈ alphabet UrlDFA_init →
  (is_Some (transition_function UrlDFA_init !! (q, c)) ↔
   (q, c) ≠ ("scheme_separator", ":")) ∧
  transition_function UrlDFA_init !! ("scheme_separator", ":") = None.
Proof.
  intros Hq Hc. split; [|vm_compute; reflexivity].
  pose proof UrlDFA_table_check as Hall.
  rewrite forallb_forall in Hall.
  apply list_elem_of_In, Hall in Hq. rewrite forallb_forall in Hq.
  apply elem_of_elements, list_elem_of_In, Hq in Hc.
  by apply bool_decide_eq_true in Hc.
Qed.

Lemma UrlDFA_table_total_but_one_witness :
  (is_Some (transition_function UrlDFA_init !! ("start", "h")) ↔
   ("start", "h") ≠ ("scheme_separator", ":")) ∧
  transition_function UrlDFA_init !! ("scheme_separator", ":") = None.
Proof.
  apply (UrlDFA_table_total_but_one "start" "h").
  - apply (bool_decide_unpack _). vm_compute. reflexivity.
  - apply (bool_decide_unpack _). vm_compute. reflexivity.
Defined.

(** C3, counterexample: "scheme_separator" is a non-sink state and ":" a
    symbol of the alphabet, and the table has no entry for the pair; it
    does not map it to "rejected". *)
Lemma UrlDFA_table_scheme_separator_colon :
  ("scheme_separator" ∈ non_sink_states) ∧
  (":" ∈ alphabet UrlDFA_init) ∧
  transition_function UrlDFA_init !! ("scheme_separator", ":") = None ∧
  transition_function UrlDFA_init !! ("scheme_separator", ":")
  ≠ Some "rejected".
Proof.
  split; [apply (bool_decide_unpack _); vm_compute; reflexivity|].
  split; [apply (bool_decide_unpack _); vm_compute; reflexivity|].
  assert (transition_function UrlDFA_init !! ("scheme_separator", ":") = None)
    as -> by (vm_compute; reflexivity).
  done.
Qed.

(** C8: [validate_url] accepts "https://example.com/path?q=1#frag", and the
    trace ends in "fragment". *)
Theorem validate_url_example :
  ∃ tr,
    validate_url "https://example.com/path?q=1#frag" UrlDFA_init
    = (UrlDFA_init, Ok (true, tr)) ∧
    last tr = Some "fragment" ∧
    tr = ["start"] ++ replicate 5 "scheme" ++ replicate 3 "scheme_separator"
         ++ replicate 11 "authority" ++ replicate 5 "path"
         ++ replicate 4 "query" ++ replicate 5 "fragment".
Proof.
  exists (["start"] ++ replicate 5 "scheme" ++ replicate 3 "scheme_separator"
          ++ replicate 11 "authority" ++ replicate 5 "path"
          ++ replicate 4 "query" ++ replicate 5 "fragment").
  split; [|split; reflexivity].
  destruct (validate_url_shape UrlDFA_init UrlDFA_start_not_rejected
              "https://example.com/path?q=1#frag") as (b & tr & Hrun & _).
  rewrite Hrun. f_equal.
  apply (f_equal snd) in Hrun. cbn [snd] in Hrun. rewrite <- Hrun.
  vm_compute. reflexivity.
Qed.




(** C10: [validate_url] always returns a verdict and a trace; "rejected"
    occurs in the trace at most once and only as its last state, the verdict
    is then [False], and the characters after the one that led there are
    not read: any longer input gives the same result. *)
Theorem validate_url_rejected_last (url : string) :
  ∃ b tr,
    validate_url url UrlDFA_init = (UrlDFA_init, Ok (b, tr)) ∧
    length tr ≤ S (String.length url) ∧
    (∀ i, tr !! i = Some "rejected" → S i = length tr) ∧
    (∀ i j, tr !! i = Some "rejected" → tr !! j = Some "rejected" → i = j) ∧
    ("rejected" ∈ tr → b = false) ∧
    ("rejected" ∈ tr →
     ∀ rest, validate_url (url +:+ rest) UrlDFA_init = (UrlDFA_init, Ok (b, tr))).
Proof. apply validate_url_shape, UrlDFA_start_not_rejected. Qed.

(** ** Persistence: [save_to_file] and [load_from_file] *)

Import dfa_simulator.

Lemma split_comma_free (s : string) :
  comma_free s = true → split "," s = [s].
Proof.
  induction s as [|c s IH]; simpl; [done|].
  intros [Hc Hs]%andb_prop. apply negb_true_iff in Hc. rewrite Hc.
  by rewrite IH.
Qed.

Lemma split_composite (s t : string) :
  comma_free s = true → split "," (s +:+ "," +:+ t) = s :: split "," t.
Proof.
  induction s as [|c s IH]; simpl; [done|].
  intros [Hc Hs]%andb_prop. apply negb_true_iff in Hc. rewrite Hc.
  by rewrite IH.
Qed.

(** A key without commas in its two parts is read back as it was written. *)
Lemma unpack2_composite_key (k : string * string) :
  comma_free k.1 = true → comma_free k.2 = true →
  unpack2 (split "," (composite_key k)) = Ok k.
Proof.
  destruct k as [state symbol]. unfold composite_key. simpl. intros Hs Hc.
  by rewrite split_composite, split_comma_free.
Qed.

Lemma composite_key_inj (k1 k2 : string * string) :
  comma_free k1.1 = true → comma_free k1.2 = true →
  comma_free k2.1 = true → comma_free k2.2 = true →
  composite_key k1 = composite_key k2 → k1 = k2.
Proof.
  intros H11 H12 H21 H22 Heq.
  pose proof (unpack2_composite_key k1 H11 H12) as H1.
  pose proof (unpack2_composite_key k2 H21 H22) as H2.
  rewrite Heq in H1. congruence.
Qed.

(** Filling a dictionary from items with distinct keys. *)
Lemma for_in_insert {K V : Type} `{Countable K} (l : list (K * V))
    (m : gmap K V) :
  NoDup l.*1 →
  for_in l (λ '(k, v) d, <[k := v]> d) m = list_to_map l ∪ m.
Proof.
  unfold for_in. revert m. induction l as [|[k v] l IH]; intros m Hnd.
  - simpl. by rewrite (left_id_L ∅ (∪)).
  - rewrite fmap_cons in Hnd. apply NoDup_cons in Hnd as [Hk Hnd].
    cbn [foldl list_to_map foldr]. rewrite IH by done.
    rewrite <- insert_union_l. symmetry. apply insert_union_r.
    by apply not_elem_of_list_to_map_1.
Qed.

(** The loop of [load_from_file] on items whose keys were written from
    pairs without commas: every key is unpacked, none raises. *)
Lemma load_transitions_encoded (items : list (string * string * string))
    (m : gmap (string * string) string) :
  Forall (λ kv, comma_free kv.1.1 = true ∧ comma_free kv.1.2 = true) items →
  load_transitions ((λ kv, (composite_key kv.1, kv.2)) <$> items) m
  = Ok (for_in items (λ '(k, v) d, <[k := v]> d) m).
Proof.
  revert m. induction items as [|[k v] items IH]; intros m Hall; [done|].
  apply Forall_cons in Hall as [[Hs Hc] Hall].
  rewrite fmap_cons. cbn [load_transitions fst snd].
  rewrite unpack2_composite_key by done. cbn. by rewrite IH.
Qed.

Section roundtrip.
Variable a : DFA.

(** No state and no symbol that a transition starts from holds a ",". *)
Hypothesis keys_comma_free : ∀ state symbol,
  is_Some (transition_function a !! (state, symbol)) →
  comma_free state = true ∧ comma_free symbol = true.

Local Abbreviation items := (map_to_list (transition_function a)).
Local Abbreviation written :=
  ((λ kv : string * string * string, (composite_key kv.1, kv.2)) <$> items).

Lemma items_comma_free :
  Forall (λ kv, comma_free kv.1.1 = true ∧ comma_free kv.1.2 = true) items.
Proof.
  apply Forall_forall. intros [[state symbol] v] Hin.
  apply elem_of_map_to_list in Hin. simpl. apply keys_comma_free. eauto.
Qed.

Lemma written_NoDup : NoDup written.*1.
Proof.
  unfold written. rewrite <- list_fmap_compose.
  apply NoDup_fmap_2_strong; [|apply NoDup_map_to_list].
  intros [k1 v1] [k2 v2] H1 H2 Heq. simpl in Heq.
  pose proof items_comma_free as Hall. rewrite Forall_forall in Hall.
  pose proof (Hall _ H1) as [? ?]. pose proof (Hall _ H2) as [? ?].
  apply composite_key_inj in Heq as ->; try done.
  apply elem_of_map_to_list in H1, H2. congruence.
Qed.

Lemma encode_transitions :
  doc_transition_function (encode a) = list_to_map written.
Proof.
  unfold encode. simpl. fold items.
  transitivity (for_in written (λ '(k, v) d, <[k := v]> d)
                  (∅ : gmap string string)).
  - unfold written, for_in. generalize (∅ : gmap string string).
    induction items as [|[k v] l IH]; intros m; [done|]. simpl. apply IH.
  - rewrite for_in_insert by apply written_NoDup.
    by rewrite (right_id_L ∅ (∪)).
Qed.

Lemma decode_encode_transitions :
  load_transitions (map_to_list (doc_transition_function (encode a))) ∅
  = Ok (transition_function a).
Proof.
  rewrite encode_transitions.
  pose proof (map_to_list_to_map written written_NoDup) as Hperm.
  unfold written in Hperm at 2.
  apply Permutation_map_inv in Hperm as (items' & -> & Hperm).
  assert (NoDup items'.*1) as Hnd.
  { rewrite <- Hperm. apply NoDup_fst_map_to_list. }
  change (map ?f items') with (f <$> items').
  rewrite load_transitions_encoded
    by (rewrite <- Hperm; apply items_comma_free).
  rewrite for_in_insert by done. rewrite (right_id_L ∅ (∪)).
  f_equal. rewrite <- (list_to_map_proper items items') by
    (done || apply NoDup_fst_map_to_list).
  apply list_to_map_to_list.
Qed.

(** Reading back what was written gives the automaton, field by field
    (sets and the transition dictionary by their contents). *)
Lemma decode_encode : decode (encode a) = Ok a.
Proof.
  unfold decode. rewrite decode_encode_transitions. cbn.
  unfold DFA_init, encode. simpl.
  rewrite !list_to_set_elements_L. by destruct a.
Qed.
End roundtrip.

Lemma load_after_save (a : DFA) (filename : string)
    (files : gmap string Document) :
  (load_from_file filename (save_to_file filename (a, files)).1.2).2
  = decode (encode a).
Proof.
  unfold save_to_file, load_from_file. cbn. by rewrite lookup_insert_eq.
Qed.

(** The round trip the code does achieve: when no state and no symbol that
    a transition starts from holds a ",", loading what was saved gives the
    automaton back. *)
Theorem save_load_roundtrip (a : DFA) (filename : string)
    (files : gmap string Document) :
  (∀ state symbol,
     is_Some (transition_function a !! (state, symbol)) →
     comma_free state = true ∧ comma_free symbol = true) →
  decode (encode a) = Ok a ∧
  (load_from_file filename (save_to_file filename (a, files)).1.2).2 = Ok a.
Proof.
  intros Hkeys. rewrite load_after_save. by rewrite decode_encode.
Qed.

Lemma save_load_roundtrip_witness :
  let a := mkDFA {["p"; "q"]} {["a"]} {[ ("p", "a") := "q" ]} "p" {["q"]} in
  decode (encode a) = Ok a ∧
  (load_from_file "dfa.json" (save_to_file "dfa.json" (a, ∅)).1.2).2 = Ok a.
Proof.
  intros a. apply (save_load_roundtrip a "dfa.json" ∅).
  intros state symbol [next Hnext]. cbn [a transition_function] in Hnext.
  apply lookup_singleton_Some in Hnext as [[= <- <-] _].
  split; reflexivity.
Defined.

(** C2, on the code: an automaton that satisfies the four invariants and
    has "," as a symbol is saved, and loading it raises the [ValueError] of
    the tuple unpacking: the key "q0,," splits into three pieces. *)
Theorem save_load_comma_symbol :
  let a := mkDFA {["q0"]} {[","]} {[ ("q0", ",") := "q0" ]} "q0" {["q0"]} in
  structurally_valid a ∧
  doc_transition_function (encode a) = {[ "q0,," := "q0" ]} ∧
  split "," "q0,," = ["q0"; ""; ""] ∧
  decode (encode a)
  = Raise (ValueError "too many values to unpack (expected 2)") ∧
  (∀ filename files,
     (load_from_file filename (save_to_file filename (a, files)).1.2).2
     = Raise (ValueError "too many values to unpack (expected 2)")) ∧
  decode (encode a) ≠ Ok a.
Proof.
  cbn zeta.
  assert (decode (encode (mkDFA {["q0"]} {[","]} {[ ("q0", ",") := "q0" ]}
                            "q0" {["q0"]}))
          = Raise (ValueError "too many values to unpack (expected 2)"))
    as Hdec by (vm_compute; reflexivity).
  split; [|split; [|split; [|split; [|split]]]].
  - split; [set_solver|]. split; [set_solver|].
    intros state symbol next_state Hlook. cbn [transition_function] in Hlook.
    apply lookup_singleton_Some in Hlook as [[= <- <-] <-].
    cbn [states alphabet].
    repeat split; apply elem_of_singleton_2; reflexivity.
  - vm_compute. reflexivity.
  - reflexivity.
  - exact Hdec.
  - intros filename files. rewrite load_after_save. exact Hdec.
  - rewrite Hdec. discriminate.
Qed.

(** * Further properties *)

(** ** [DFA.process_string]: exceptions and traces *)

Import dfa_simulator.

Lemma process_loop_raise (a a' : DFA) input cur seq e :
  process_loop input cur seq a = (a', Raise e) →
  ∃ symbol,
    symbol ∈ input ∧ (symbol ∉ alphabet a) ∧ e = UnknownSymbol symbol.
Proof.
  revert cur seq. induction input as [|symbol rest IH]; intros cur seq.
  - cbn. discriminate.
  - destruct (decide (symbol ∈ alphabet a)) as [Hin|Hin].
    + destruct (transition_function a !! (cur, symbol)) as [next|] eqn:Hnext.
      * rewrite (process_loop_step _ _ _ _ _ next) by done.
        intros (s & Hs & Hout & ->)%IH. exists s. split; [by right | done].
      * rewrite process_loop_undefined by done. discriminate.
    + rewrite process_loop_unknown by done. intros [= _ <-].
      exists symbol. split; [by left | done].
Qed.

(** The only exception of [process_string] is the [ValueError] for a
    character of the input that is outside the alphabet: the lookup in the
    transition dictionary never raises. *)
Theorem process_string_raises_only_unknown (a a' : DFA)
    (input_string : string) (e : exn) :
  process_string input_string a = (a', Raise e) →
  ∃ symbol,
    symbol ∈ chars input_string ∧ (symbol ∉ alphabet a) ∧
    e = UnknownSymbol symbol.
Proof. unfold process_string. method_unfold. apply process_loop_raise. Qed.

Lemma process_string_raises_only_unknown_witness :
  let a := mkDFA {["p"; "q"]} {["a"; "b"]} {[ ("p", "a") := "q" ]} "p" {["q"]} in
  ∃ symbol,
    symbol ∈ chars "a?b" ∧ (symbol ∉ alphabet a) ∧
    ValueError "Symbol '?' not in alphabet" = UnknownSymbol symbol.
Proof.
  intros a.
  apply (process_string_raises_only_unknown a a "a?b").
  vm_compute. reflexivity.
Defined.

Lemma process_loop_follows (a a' : DFA) input cur seq b tr :
  process_loop input cur seq a = (a', Ok (b, tr)) →
  ∃ visited,
    tr = seq ++ visited ∧
    follows (transition_function a) cur input visited ∧
    (b = true ↔
     length visited = length input ∧
     ∃ q, last (cur :: visited) = Some q ∧ q ∈ accept_states a).
Proof.
  revert cur seq. induction input as [|symbol rest IH]; intros cur seq.
  - cbn. intros [= _ <- <-]. exists []. rewrite app_nil_r.
    split; [done|]. split; [done|]. rewrite bool_decide_eq_true. cbn.
    split; [eauto|]. by intros (_ & q & [= <-] & Hq).
  - destruct (decide (symbol ∈ alphabet a)) as [Hin|Hin];
      [|by rewrite process_loop_unknown].
    destruct (transition_function a !! (cur, symbol)) as [next|] eqn:Hnext.
    + rewrite (process_loop_step _ _ _ _ _ next) by done.
      intros (visited & -> & Hfol & Hacc)%IH. exists (next :: visited).
      split; [by rewrite <- app_assoc|]. split; [done|].
      rewrite Hacc, last_cons_cons. cbn [length]. split.
      * intros [Hlen Hq]. split; [by rewrite Hlen | done].
      * intros [[= Hlen] Hq]. done.
    + rewrite process_loop_undefined by done. intros [= _ <- <-].
      exists []. rewrite app_nil_r. split; [done|]. split; [done|].
      cbn [length]. split; [done | by intros [[=] _]].
Qed.

(** A trace returned by [process_string] starts with the start state and
    then follows the transition dictionary, symbol by symbol; the verdict is
    [True] exactly when every symbol was read and the last state of the
    trace is an accept state. *)
Theorem process_string_trace (a a' : DFA) (input_string : string)
    (b : bool) (tr : list string) :
  process_string input_string a = (a', Ok (b, tr)) →
  ∃ visited,
    tr = start_state a :: visited ∧
    follows (transition_function a) (start_state a) (chars input_string)
      visited ∧
    (b = true ↔
     length visited = String.length input_string ∧
     ∃ q, last tr = Some q ∧ q ∈ accept_states a).
Proof.
  unfold process_string. method_unfold.
  intros (visited & -> & Hfol & Hacc)%process_loop_follows.
  exists visited. rewrite <- length_chars. done.
Qed.

Lemma process_string_trace_witness :
  let a := mkDFA {["p"; "q"]} {["a"; "b"]}
             {[ ("p", "a") := "q"; ("q", "b") := "p" ]} "p" {["p"]} in
  ∃ visited,
    ["p"; "q"; "p"] = start_state a :: visited ∧
    follows (transition_function a) (start_state a) (chars "ab") visited ∧
    (true = true ↔
     length visited = String.length "ab" ∧
     ∃ q, last ["p"; "q"; "p"] = Some q ∧ q ∈ accept_states a).
Proof.
  intros a. apply (process_string_trace a a "ab" true ["p"; "q"; "p"]).
  vm_compute. reflexivity.
Defined.

(** ** [load_from_file]: which documents are read *)

Lemma length_split (sep : ascii) (s : string) :
  length (split sep s) = S (count_char sep s).
Proof.
  induction s as [|c s IH]; [done|]. cbn [split count_char].
  destruct (Ascii.eqb c sep).
  - cbn. by rewrite IH.
  - destruct (split sep s); [done|]. cbn in *. lia.
Qed.

Lemma unpack2_split (key : string) :
  (count_char "," key = 1 ∧ ∃ k, unpack2 (split "," key) = Ok k)
  ∨ (count_char "," key ≠ 1 ∧
     ∃ msg, unpack2 (split "," key) = Raise (ValueError msg)).
Proof.
  pose proof (length_split "," key) as Hlen.
  destruct (split "," key) as [|p1 [|p2 [|p3 ps]]]; cbn in Hlen.
  - lia.
  - right. split; [lia | eauto].
  - left. split; [lia | eauto].
  - right. split; [lia | eauto].
Qed.

Lemma load_transitions_result (items : list (string * string))
    (m : gmap (string * string) string) :
  (Forall (λ kv, count_char "," kv.1 = 1) items ∧
   ∃ m', load_transitions items m = Ok m')
  ∨ (¬ Forall (λ kv, count_char "," kv.1 = 1) items ∧
     ∃ msg, load_transitions items m = Raise (ValueError msg)).
Proof.
  revert m. induction items as [|[key value] items IH]; intros m.
  - left. split; [constructor | by eexists].
  - cbn [load_transitions].
    destruct (unpack2_split key) as [(Hc & k & ->)|(Hc & msg & ->)]; cbn.
    + destruct (IH (<[k := value]> m)) as [(Hall & m' & ->)|(Hall & msg & ->)].
      * left. split; [by constructor | by eexists].
      * right. split; [|by eexists]. by intros [_ ?]%Forall_cons_1.
    + right. split; [|by eexists]. by intros [? _]%Forall_cons_1.
Qed.

(** A document of the shape [save_to_file] writes (the five fields are
    there: three lists of strings, a string, and a dictionary from strings
    to strings, as [Document] has them) is read by [load_from_file] exactly
    when every key of its transition dictionary holds one ",": with none
    or with several, the unpacking of [key.split(",")] raises a
    [ValueError]. A document that lacks a field or has one of another type
    is outside this statement. *)
Theorem decode_succeeds_iff (dfa_dict : Document) :
  ((∃ a, decode dfa_dict = Ok a) ↔
   map_Forall (λ key _, count_char "," key = 1)
     (doc_transition_function dfa_dict)) ∧
  ((∃ msg, decode dfa_dict = Raise (ValueError msg)) ↔
   ¬ map_Forall (λ key _, count_char "," key = 1)
       (doc_transition_function dfa_dict)).
Proof.
  assert (map_Forall (λ key _, count_char "," key = 1)
            (doc_transition_function dfa_dict)
          ↔ Forall (λ kv, count_char "," kv.1 = 1)
              (map_to_list (doc_transition_function dfa_dict))) as ->.
  { rewrite map_Forall_to_list. apply Forall_proper; [|done]. by intros []. }
  unfold decode.
  destruct (load_transitions_result
              (map_to_list (doc_transition_function dfa_dict)) ∅)
    as [(Hall & m' & ->)|(Hall & msg & ->)]; cbn.
  - split; split; try done.
    + intros _. unfold DFA_init. eauto.
    + intros [msg [=]].
  - split; split; try done.
    + intros [a [=]].
    + eauto.
Qed.

(** ** [validate_url] and [process_string] on the same automaton *)

Section two_engines.
Import url_validator.
Variable U : UrlDFA.

Local Abbreviation D :=
  (mkDFA (states U) (alphabet U) (transition_function U) (start_state U)
     (accept_states U)).

Lemma validate_accepts_process l cur seq tr :
  validate_loop l cur seq U = (U, Ok (true, tr)) →
  process_loop l cur seq D = (D, Ok (true, tr)).
Proof.
  revert cur seq. induction l as [|char rest IH]; intros cur seq.
  - method_unfold. by intros [= -> ->].
  - destruct (decide (char ∈ alphabet U)) as [Hin|Hin];
      [|by rewrite validate_loop_unknown].
    destruct (transition_function U !! (cur, char)) as [next|] eqn:Hnext;
      [|by rewrite validate_loop_undefined].
    destruct (decide (next = "rejected")) as [->|Hne];
      [by rewrite validate_loop_rejected|].
    rewrite (validate_loop_step _ _ _ _ _ next) by done.
    rewrite (process_loop_step D _ _ _ _ next) by done. apply IH.
Qed.

Hypothesis rejected_not_accepting : "rejected" ∉ accept_states U.
Hypothesis rejected_no_exit : ∀ symbol,
  transition_function U !! ("rejected", symbol) = None.

Lemma process_accepts_validate l cur seq tr :
  process_loop l cur seq D = (D, Ok (true, tr)) →
  validate_loop l cur seq U = (U, Ok (true, tr)).
Proof.
  revert cur seq. induction l as [|char rest IH]; intros cur seq.
  - method_unfold. by intros [= -> ->].
  - destruct (decide (char ∈ alphabet U)) as [Hin|Hin];
      [|by rewrite (process_loop_unknown D)].
    destruct (transition_function U !! (cur, char)) as [next|] eqn:Hnext;
      [|by rewrite (process_loop_undefined D)].
    rewrite (process_loop_step D _ _ _ _ next) by done.
    destruct (decide (next = "rejected")) as [->|Hne].
    + destruct rest as [|char' rest'].
      * method_unfold. by rewrite bool_decide_false.
      * destruct (decide (char' ∈ alphabet U)) as [Hin'|Hin'].
        -- by rewrite (process_loop_undefined D).
        -- by rewrite (process_loop_unknown D).
    + rewrite (validate_loop_step _ _ _ _ _ next) by done. apply IH.
Qed.

Lemma validate_url_iff_process_string (url : string) (tr : list string) :
  validate_url url U = (U, Ok (true, tr)) ↔
  process_string url D = (D, Ok (true, tr)).
Proof.
  unfold validate_url, process_string. method_unfold.
  split; [apply validate_accepts_process | apply process_accepts_validate].
Qed.
End two_engines.

Import url_validator.

Lemma UrlDFA_rejected_not_accepting : "rejected" ∉ accept_states UrlDFA_init.
Proof. apply (bool_decide_eq_false_1 _). vm_compute. reflexivity. Qed.

Lemma UrlDFA_rejected_no_exit (symbol : string) :
  transition_function UrlDFA_init !! ("rejected", symbol) = None.
Proof.
  assert (map_Forall (λ k _, k.1 ≠ "rejected")
            (transition_function UrlDFA_init)) as Hall.
  { apply (bool_decide_unpack _). vm_compute. reflexivity. }
  destruct (transition_function UrlDFA_init !! ("rejected", symbol))
    as [next|] eqn:Hnext; [|done].
  by apply Hall in Hnext.
Qed.

(** On the URL grammar the two engines accept the same strings, with the
    same trace: [validate_url] returns [True] exactly when [process_string],
    run on the automaton with the same five fields, returns [True]. *)
Theorem UrlDFA_engines_agree (url : string) (tr : list string) :
  let d := mkDFA (states UrlDFA_init) (alphabet UrlDFA_init)
             (transition_function UrlDFA_init) (start_state UrlDFA_init)
             (accept_states UrlDFA_init) in
  validate_url url UrlDFA_init = (UrlDFA_init, Ok (true, tr)) ↔
  process_string url d = (d, Ok (true, tr)).
Proof.
  apply validate_url_iff_process_string.
  - apply UrlDFA_rejected_not_accepting.
  - apply UrlDFA_rejected_no_exit.
Qed.

(** ** Strings the URL grammar rejects and accepts *)

Lemma str_in_char_chars (c : ascii) (s : string) :
  str_in (String c EmptyString) s = true → String c EmptyString ∈ chars s.
Proof.
  induction s as [|c' s IH]; cbn [str_in chars]; [done|].
  intros [Hpre|Hin]%orb_prop.
  - cbn in Hpre. destruct (ascii_dec c c') as [->|]; [left | done].
  - right. by apply IH.
Qed.

Lemma Forall_alphabet (check : string → bool) :
  forallb check (elements (alphabet UrlDFA_init)) = true →
  ∀ char, char ∈ alphabet UrlDFA_init → check char = true.
Proof.
  intros Hall char Hin. rewrite forallb_forall in Hall.
  by apply Hall, list_elem_of_In, elem_of_elements.
Qed.

Lemma UrlDFA_start_table (char : string) :
  char ∈ alphabet UrlDFA_init → char ≠ "h" →
  transition_function UrlDFA_init !! ("start", char) = Some "rejected".
Proof.
  intros Hin Hne.
  pose proof (Forall_alphabet (λ char,
    bool_decide (char ≠ "h" →
      transition_function UrlDFA_init !! ("start", char) = Some "rejected")))
    as Hall.
  specialize (Hall ltac:(vm_compute; reflexivity) char Hin).
  apply bool_decide_eq_true in Hall. by apply Hall.
Qed.

Lemma UrlDFA_host_table (c : ascii) :
  str_in (String c EmptyString) (alnum +:+ "-._") = true →
  String c EmptyString ∈ alphabet UrlDFA_init ∧
  transition_function UrlDFA_init !! ("scheme_separator", String c EmptyString)
  = Some "authority" ∧
  transition_function UrlDFA_init !! ("authority", String c EmptyString)
  = Some "authority".
Proof.
  intros Hin%str_in_char_chars.
  assert (forallb (λ char, bool_decide (
      char ∈ alphabet UrlDFA_init ∧
      transition_function UrlDFA_init !! ("scheme_separator", char)
      = Some "authority" ∧
      transition_function UrlDFA_init !! ("authority", char)
      = Some "authority")) (chars (alnum +:+ "-._")) = true) as Hall
    by (vm_compute; reflexivity).
  rewrite forallb_forall in Hall.
  by apply list_elem_of_In, Hall, bool_decide_eq_true in Hin.
Qed.

Lemma validate_url_cons (U : UrlDFA) (c : ascii) (rest : string) :
  validate_url (String c rest) U
  = validate_loop (String c EmptyString :: chars rest) (start_state U)
      [start_state U] U.
Proof. reflexivity. Qed.

(** A URL that does not begin with "h" is rejected at its first character,
    whatever follows: the trace is the start state and then "rejected". *)
Theorem validate_url_not_h (c : ascii) (rest : string) :
  c ≠ "h"%char →
  validate_url (String c rest) UrlDFA_init
  = (UrlDFA_init, Ok (false, ["start"; "rejected"])).
Proof.
  intros Hne. rewrite validate_url_cons.
  change (start_state UrlDFA_init) with "start".
  destruct (decide (String c EmptyString ∈ alphabet UrlDFA_init)) as [Hin|Hin].
  - rewrite validate_loop_rejected; [done | done |].
    apply UrlDFA_start_table; [done | congruence].
  - by rewrite validate_loop_unknown.
Qed.

Lemma validate_url_not_h_witness :
  validate_url "ftp://x.com" UrlDFA_init
  = (UrlDFA_init, Ok (false, ["start"; "rejected"])).
Proof. apply (validate_url_not_h "f" "tp://x.com"). discriminate. Defined.

Lemma authority_run (host : string) (seq : list string) :
  host_chars host = true →
  validate_loop (chars host) "authority" seq UrlDFA_init
  = (UrlDFA_init,
     Ok (true, seq ++ replicate (String.length host) "authority")).
Proof.
  revert seq. induction host as [|c host IH]; intros seq.
  - intros _. cbn [chars String.length replicate]. rewrite app_nil_r.
    change (validate_loop [] "authority" seq UrlDFA_init)
      with (UrlDFA_init,
            @Ok (bool * list string)
              (bool_decide ("authority" ∈ accept_states UrlDFA_init), seq)).
    assert ("authority" ∈ accept_states UrlDFA_init) as Hacc
      by (apply (bool_decide_unpack _); vm_compute; reflexivity).
    by rewrite bool_decide_true.
  - cbn [host_chars chars String.length replicate].
    intros [(Hin & _ & Hstep)%UrlDFA_host_table Hhost]%andb_prop.
    rewrite (validate_loop_step _ _ _ _ _ "authority") by done.
    rewrite IH by done. by rewrite <- app_assoc.
Qed.

Lemma scheme_separator_run (host : string) (seq : list string) :
  host ≠ EmptyString → host_chars host = true →
  validate_loop (chars host) "scheme_separator" seq UrlDFA_init
  = (UrlDFA_init,
     Ok (true, seq ++ replicate (String.length host) "authority")).
Proof.
  destruct host as [|c host]; [done|]. intros _.
  cbn [host_chars chars String.length replicate].
  intros [(Hin & Hstep & _)%UrlDFA_host_table Hhost]%andb_prop.
  rewrite (validate_loop_step _ _ _ _ _ "authority") by done.
  rewrite authority_run by done. by rewrite <- app_assoc.
Qed.

Lemma after_scheme (prefix host : string) (tr : list string) :
  (validate_url prefix UrlDFA_init).2 = Ok (false, tr) →
  last tr = Some "scheme_separator" → ("rejected" ∉ tr) →
  host ≠ EmptyString → host_chars host = true →
  validate_url (prefix +:+ host) UrlDFA_init
  = (UrlDFA_init,
     Ok (true, tr ++ replicate (String.length host) "authority")).
Proof.
  intros Hrun Hlast Hnot Hne Hhost.
  destruct (validate_url_app UrlDFA_init UrlDFA_start_not_rejected prefix host)
    as [(p & Hp & _ & Hrun' & _)|(tr' & cur & _ & _ & Hl & Hrun' & ->)].
  - rewrite Hrun' in Hrun. injection Hrun as <-. destruct Hnot. set_solver.
  - rewrite Hrun' in Hrun. cbn [snd] in Hrun. injection Hrun as _ ->.
    assert (cur = "scheme_separator") as -> by congruence.
    by apply scheme_separator_run.
Qed.

(** "http://" or "https://" followed by a non-empty host made of letters,
    digits, "-", "." and "_" is accepted, and the trace ends with one
    "authority" for each character of the host. *)
Theorem validate_url_accepts_host (host : string) :
  host ≠ EmptyString → host_chars host = true →
  validate_url ("http://" +:+ host) UrlDFA_init
  = (UrlDFA_init,
     Ok (true, ["start"] ++ replicate 4 "scheme"
               ++ replicate 3 "scheme_separator"
               ++ replicate (String.length host) "authority")) ∧
  validate_url ("https://" +:+ host) UrlDFA_init
  = (UrlDFA_init,
     Ok (true, ["start"] ++ replicate 5 "scheme"
               ++ replicate 3 "scheme_separator"
               ++ replicate (String.length host) "authority")).
Proof.
  intros Hne Hhost. split.
  - rewrite (after_scheme "http://" host
               (["start"] ++ replicate 4 "scheme"
                ++ replicate 3 "scheme_separator")); try done.
    apply (bool_decide_eq_false_1 _). vm_compute. reflexivity.
  - rewrite (after_scheme "https://" host
               (["start"] ++ replicate 5 "scheme"
                ++ replicate 3 "scheme_separator")); try done.
    apply (bool_decide_eq_false_1 _). vm_compute. reflexivity.
Qed.

Lemma validate_url_accepts_host_witness :
  validate_url "http://example.com" UrlDFA_init
  = (UrlDFA_init,
     Ok (true, ["start"] ++ replicate 4 "scheme"
               ++ replicate 3 "scheme_separator"
               ++ replicate 11 "authority")) ∧
  validate_url "https://example.com" UrlDFA_init
  = (UrlDFA_init,
     Ok (true, ["start"] ++ replicate 5 "scheme"
               ++ replicate 3 "scheme_separator"
               ++ replicate 11 "authority")).
Proof.
  apply (validate_url_accepts_host "example.com"); [discriminate|].
  vm_compute. reflexivity.
Defined.

(** ** Slices and [find] *)

Lemma str_take_drop (n : nat) (s : string) : str_take n s +:+ str_drop n s = s.
Proof.
  revert s. induction n as [|n IH]; intros [|c s]; try done.
  cbn [str_take str_drop]. change (String c ?x +:+ ?y) with (String c (x +:+ y)).
  by rewrite IH.
Qed.

Lemma str_take_add (n m : nat) (s : string) :
  str_take (n + m) s = str_take n s +:+ str_take m (str_drop n s).
Proof.
  revert s. induction n as [|n IH]; intros s; [by destruct s|].
  destruct s as [|c s]; cbn; [by destruct m | by rewrite IH].
Qed.

Lemma str_drop_add (n m : nat) (s : string) :
  str_drop (n + m) s = str_drop m (str_drop n s).
Proof.
  revert s. induction n as [|n IH]; intros s; [by destruct s|].
  destruct s as [|c s]; cbn; [by destruct m | by rewrite IH].
Qed.

Lemma str_take_all (n : nat) (s : string) :
  String.length s ≤ n → str_take n s = s.
Proof.
  revert s. induction n as [|n IH]; intros [|c s] Hle; cbn in *;
    try done; try lia.
  f_equal. apply IH. lia.
Qed.

Lemma str_take_0 (s : string) : str_take 0 s = EmptyString.
Proof. by destruct s. Qed.

Lemma str_take_empty (n : nat) : str_take n EmptyString = EmptyString.
Proof. by destruct n. Qed.

Lemma length_str_drop (n : nat) (s : string) :
  String.length (str_drop n s) = String.length s - n.
Proof.
  revert s. induction n as [|n IH]; intros [|c s]; cbn; try done.
Qed.

Lemma app_empty_r (s : string) : s +:+ EmptyString = s.
Proof.
  induction s as [|c s IH]; [done|].
  change (String c (s +:+ EmptyString) = String c s). by rewrite IH.
Qed.

Lemma app_assoc_str (s1 s2 s3 : string) :
  (s1 +:+ s2) +:+ s3 = s1 +:+ (s2 +:+ s3).
Proof.
  induction s1 as [|c s1 IH]; [done|].
  change (String c ((s1 +:+ s2) +:+ s3) = String c (s1 +:+ (s2 +:+ s3))).
  by rewrite IH.
Qed.

(** A slice between two non-negative bounds, by taking and dropping. *)
Lemma slice_nonneg (s : string) (a b : Z) :
  (0 ≤ a)%Z → (0 ≤ b)%Z →
  slice s (Some a) (Some b)
  = str_take (Z.to_nat b - Z.to_nat a) (str_drop (Z.to_nat a) s).
Proof.
  intros Ha Hb. unfold slice, slice_index. cbn [from_option].
  rewrite !(proj2 (Z.ltb_ge _ _)) by done.
  set (L := String.length s).
  destruct (decide (a ≤ Z.of_nat L)%Z) as [HaL|HaL].
  - rewrite (Z.min_l a) by done.
    destruct (decide (b ≤ Z.of_nat L)%Z) as [HbL|HbL].
    + rewrite (Z.min_l b) by done. f_equal. lia.
    + rewrite (Z.min_r b) by lia.
      rewrite !str_take_all; [done | |]; rewrite length_str_drop; lia.
  - rewrite (Z.min_r a) by lia.
    assert (∀ n, L ≤ n → str_drop n s = EmptyString) as Hdrop.
    { intros n Hn.
      pose proof (length_str_drop n s) as Hlen.
      destruct (str_drop n s); [done | cbn in Hlen; lia]. }
    rewrite !Hdrop by lia. by rewrite !str_take_empty.
Qed.

Lemma slice_None_l (s : string) (b : Z) :
  slice s None (Some b) = slice s (Some 0%Z) (Some b).
Proof.
  unfold slice. cbn [from_option].
  replace (slice_index (Z.of_nat (String.length s)) 0) with 0%Z; [done|].
  unfold slice_index. rewrite (proj2 (Z.ltb_ge 0 0)) by lia. lia.
Qed.

Lemma slice_None_r (s : string) (a : Z) :
  slice s (Some a) None = slice s (Some a) (Some (len s)).
Proof.
  unfold slice, slice_index, len. cbn [from_option].
  rewrite (proj2 (Z.ltb_ge (Z.of_nat _) 0)) by lia. by rewrite Z.min_id.
Qed.

Lemma slice_full (s : string) : slice s (Some 0%Z) (Some (len s)) = s.
Proof.
  rewrite slice_nonneg by (unfold len; lia).
  change (Z.to_nat 0) with 0. cbn [str_drop]. rewrite Nat.sub_0_r.
  apply str_take_all. unfold len. lia.
Qed.

Lemma slice_nil (s : string) (a b : Z) :
  (0 ≤ a)%Z → (0 ≤ b)%Z → (b ≤ a)%Z → slice s (Some a) (Some b) = EmptyString.
Proof.
  intros Ha Hb Hle. rewrite slice_nonneg by done.
  replace (Z.to_nat b - Z.to_nat a) with 0 by lia. apply str_take_0.
Qed.

Lemma slice_cat (s : string) (a b b' c : Z) :
  (0 ≤ a ≤ b)%Z → b = b' → (b' ≤ c)%Z →
  slice s (Some a) (Some b) +:+ slice s (Some b') (Some c)
  = slice s (Some a) (Some c).
Proof.
  intros Hab <- Hbc. rewrite !slice_nonneg by lia.
  replace (Z.to_nat c - Z.to_nat a)
    with ((Z.to_nat b - Z.to_nat a) + (Z.to_nat c - Z.to_nat b)) by lia.
  rewrite str_take_add. f_equal. f_equal.
  rewrite <- str_drop_add. f_equal. lia.
Qed.

Lemma find_from_range (sub s : string) (i : Z) :
  find_from sub s i = (-1)%Z
  ∨ (i ≤ find_from sub s i ≤ i + Z.of_nat (String.length s))%Z.
Proof.
  revert i. induction s as [|c s IH]; intros i; cbn [find_from].
  - destruct (String.prefix sub ""); [right; cbn; lia | by left].
  - destruct (String.prefix sub (String c s)); [right; cbn; lia|].
    destruct (IH (i + 1)%Z) as [->|?]; [by left | right; cbn; lia].
Qed.

Lemma find_range (sub s : string) :
  find sub s = (-1)%Z ∨ (0 ≤ find sub s ≤ len s)%Z.
Proof. apply (find_from_range sub s 0). Qed.

(** Where [find] finds [sub], [sub] is. *)
Lemma find_from_prefix (sub s : string) (i : Z) :
  (0 ≤ i)%Z → find_from sub s i ≠ (-1)%Z →
  String.prefix sub (str_drop (Z.to_nat (find_from sub s i - i)) s) = true.
Proof.
  revert i. induction s as [|c s IH]; intros i Hi; cbn [find_from].
  - destruct (String.prefix sub "") eqn:Hpre; [|done].
    intros _. by rewrite Z.sub_diag.
  - destruct (String.prefix sub (String c s)) eqn:Hpre.
    + intros _. by rewrite Z.sub_diag.
    + intros Hfound. specialize (IH (i + 1)%Z ltac:(lia) Hfound).
      destruct (find_from_range sub s (i + 1)) as [?|Hrange]; [done|].
      replace (Z.to_nat (find_from sub s (i + 1) - i))
        with (S (Z.to_nat (find_from sub s (i + 1) - (i + 1)))) by lia.
      exact IH.
Qed.

Lemma prefix_take (sub s : string) :
  String.prefix sub s = true →
  s = sub +:+ str_drop (String.length sub) s.
Proof.
  revert s. induction sub as [|c sub IH]; intros s.
  - by destruct s.
  - destruct s as [|c' s]; [done|]. cbn [String.prefix].
    destruct (ascii_dec c c') as [->|]; [|done].
    intros Hpre. cbn [String.length str_drop].
    change (String c' s = String c' (sub +:+ str_drop (String.length sub) s)).
    by rewrite <- IH.
Qed.

(** A string is cut in three at an occurrence that [find] reports. *)
Lemma cut_at_find (sub s : string) :
  find sub s ≠ (-1)%Z →
  slice s None (Some (find sub s)) +:+ sub
  +:+ slice s (Some (find sub s + len sub)%Z) None = s.
Proof.
  intros Hfound.
  destruct (find_range sub s) as [?|Hrange]; [done|].
  pose proof (find_from_prefix sub s 0 ltac:(done) Hfound) as Hpre.
  fold (find sub s) in Hpre. rewrite Z.sub_0_r in Hpre.
  apply prefix_take in Hpre.
  rewrite slice_None_l, slice_None_r.
  rewrite !slice_nonneg by (unfold len in *; lia).
  change (Z.to_nat 0) with 0. cbn [str_drop]. rewrite Nat.sub_0_r.
  replace (Z.to_nat (find sub s + len sub))
    with (Z.to_nat (find sub s) + String.length sub) by (unfold len; lia).
  rewrite str_drop_add.
  rewrite (str_take_all _ (str_drop _ (str_drop _ s))).
  2: { rewrite !length_str_drop. unfold len. lia. }
  rewrite <- Hpre. apply str_take_drop.
Qed.

(** ** [analyze_url_components] *)

Import url_validator_components.

Lemma earliest_3 (x y z e : Z) :
  let r := earliest [x; y; z] e in
  (r ≤ e)%Z ∧ (x ≠ (-1)%Z → r ≤ x)%Z ∧ (y ≠ (-1)%Z → r ≤ y)%Z ∧
  (z ≠ (-1)%Z → r ≤ z)%Z ∧
  (r = e ∨ (x ≠ (-1)%Z ∧ r = x) ∨ (y ≠ (-1)%Z ∧ r = y)
   ∨ (z ≠ (-1)%Z ∧ r = z)).
Proof.
  unfold earliest, for_in. cbn [foldl].
  repeat (match goal with
          | |- context [(?a =? ?b)%Z] => destruct (Z.eqb_spec a b)
          | |- context [(?a <? ?b)%Z] => destruct (Z.ltb_spec a b)
          | _ : context [(?a <? ?b)%Z] |- _ => destruct (Z.ltb_spec a b)
          end; cbn [negb andb] in *); lia.
Qed.

Lemma earliest_2 (x y e : Z) :
  let r := earliest [x; y] e in
  (r ≤ e)%Z ∧ (x ≠ (-1)%Z → r ≤ x)%Z ∧ (y ≠ (-1)%Z → r ≤ y)%Z ∧
  (r = e ∨ (x ≠ (-1)%Z ∧ r = x) ∨ (y ≠ (-1)%Z ∧ r = y)).
Proof.
  unfold earliest, for_in. cbn [foldl].
  repeat (match goal with
          | |- context [(?a =? ?b)%Z] => destruct (Z.eqb_spec a b)
          | |- context [(?a <? ?b)%Z] => destruct (Z.ltb_spec a b)
          | _ : context [(?a <? ?b)%Z] |- _ => destruct (Z.ltb_spec a b)
          end; cbn [negb andb] in *); lia.
Qed.

Lemma app_empty_l (s : string) : EmptyString +:+ s = s.
Proof. reflexivity. Qed.

(** Removes the slices that are empty and joins the ones that meet. *)
Ltac join_slices :=
  repeat match goal with
         | |- context [slice ?s (Some ?a) (Some ?b)] =>
             rewrite (slice_nil s a b) by lia
         end;
  rewrite ?app_empty_l, ?app_empty_r;
  rewrite <- ?app_assoc_str;
  repeat match goal with
         | |- context [slice ?s (Some ?a) (Some ?b)
                       +:+ slice ?s (Some ?b') (Some ?c)] =>
             rewrite (slice_cat s a b b' c) by lia
         end.

(** What follows the scheme is cut into authority, path, query and
    fragment without loss. *)
Lemma rest_parts (rest : string) :
  let path_start := find "/" rest in
  let query_start := find "?" rest in
  let fragment_start := find "#" rest in
  slice rest None
    (Some (earliest [path_start; query_start; fragment_start] (len rest)))
  +:+ (if negb (path_start =? -1)%Z
       then slice rest (Some path_start)
              (Some (earliest [query_start; fragment_start] (len rest)))
       else EmptyString)
  +:+ (if negb (query_start =? -1)%Z
       then slice rest (Some query_start)
              (Some (if negb (fragment_start =? -1)%Z then fragment_start
                     else len rest))
       else EmptyString)
  +:+ (if negb (fragment_start =? -1)%Z
       then slice rest (Some fragment_start) None
       else EmptyString)
  = rest.
Proof.
  intros p q f.
  pose proof (find_range "/" rest) as Hp. fold p in Hp.
  pose proof (find_range "?" rest) as Hq. fold q in Hq.
  pose proof (find_range "#" rest) as Hf. fold f in Hf.
  pose proof (earliest_3 p q f (len rest)) as HA.
  pose proof (earliest_2 q f (len rest)) as Hpe.
  cbn zeta in HA, Hpe.
  generalize dependent (earliest [p; q; f] (len rest)). intros A HA.
  generalize dependent (earliest [q; f] (len rest)). intros pe Hpe.
  assert (0 ≤ len rest)%Z as HL by (unfold len; lia).
  rewrite slice_None_l, slice_None_r.
  etrans; [|apply (slice_full rest)].
  generalize dependent (len rest). intros L Hp Hq Hf HA Hpe HL.
  clearbody p q f.
  destruct (Z.eqb_spec p (-1)) as [->|Hp1];
    [clear Hp | destruct Hp as [?|Hp]; [done|]];
  (destruct (Z.eqb_spec q (-1)) as [->|Hq1];
    [clear Hq | destruct Hq as [?|Hq]; [done|]]);
  (destruct (Z.eqb_spec f (-1)) as [->|Hf1];
    [clear Hf | destruct Hf as [?|Hf]; [done|]]);
  cbn [negb]; destruct_and?; destruct_or?; destruct_and?;
  try (exfalso; lia); subst;
  join_slices; first [reflexivity | f_equal; f_equal; lia].
Qed.

(** The result of [analyze_url_components], when it is a dictionary: the
    URL was accepted, "://" was found, and the five components are the
    slices the code takes. *)
Lemma analyze_Some (U U' : UrlDFA) (url : string) (comp : Components) :
  analyze_url_components url U = (U', Ok (Some comp)) →
  let scheme_end := find "://" url in
  let rest := slice url (Some (scheme_end + 3)%Z) None in
  let path_start := find "/" rest in
  let query_start := find "?" rest in
  let fragment_start := find "#" rest in
  (∃ tr, validate_url url U = (U', Ok (true, tr))) ∧
  scheme_end ≠ (-1)%Z ∧
  scheme comp = slice url None (Some scheme_end) ∧
  authority comp
  = slice rest None
      (Some (earliest [path_start; query_start; fragment_start] (len rest))) ∧
  path comp
  = (if negb (path_start =? -1)%Z
     then slice rest (Some path_start)
            (Some (earliest [query_start; fragment_start] (len rest)))
     else EmptyString) ∧
  query comp
  = (if negb (query_start =? -1)%Z
     then slice rest (Some query_start)
            (Some (if negb (fragment_start =? -1)%Z then fragment_start
                   else len rest))
     else EmptyString) ∧
  fragment comp
  = (if negb (fragment_start =? -1)%Z
     then slice rest (Some fragment_start) None
     else EmptyString).
Proof.
  unfold analyze_url_components, mbind, M_bind.
  destruct (validate_url url U) as [σ [[valid tr]|e]]; [|done].
  destruct valid; cbn [negb]; [|done].
  destruct (Z.eqb_spec (find "://" url) (-1)) as [|Hfound]; cbn [negb];
    [done|].
  intros [= <- <-]. cbn. split; [by eexists | done].
Qed.

(** The components [analyze_url_components] returns spell the URL: the
    scheme, "://", the authority, the path, the query and the fragment,
    one after the other, are the URL that was analysed. *)
Theorem analyze_url_components_concat (U U' : UrlDFA) (url : string)
    (comp : Components) :
  analyze_url_components url U = (U', Ok (Some comp)) →
  scheme comp +:+ "://" +:+ authority comp +:+ path comp +:+ query comp
  +:+ fragment comp = url.
Proof.
  intros (_ & Hfound & -> & -> & -> & -> & ->)%analyze_Some.
  rewrite rest_parts. by apply (cut_at_find "://" url).
Qed.

Lemma count_char_app (c : ascii) (s t : string) :
  count_char c (s +:+ t) = count_char c s + count_char c t.
Proof.
  induction s as [|c' s IH]; [done|].
  change (count_char c (String c' (s +:+ t))
          = count_char c (String c' s) + count_char c t).
  cbn [count_char]. rewrite IH. lia.
Qed.

Lemma count_take_le (c : ascii) (n : nat) (s : string) :
  count_char c (str_take n s) ≤ count_char c s.
Proof.
  rewrite <- (str_take_drop n s) at 2. rewrite count_char_app. lia.
Qed.

Lemma count_take_mono (c : ascii) (n m : nat) (s : string) :
  n ≤ m → count_char c (str_take n s) ≤ count_char c (str_take m s).
Proof.
  intros Hle. replace m with (n + (m - n)) by lia.
  rewrite str_take_add, count_char_app. lia.
Qed.

Lemma count_seg (c : ascii) (a b : nat) (s : string) :
  count_char c (str_take (b - a) (str_drop a s))
  ≤ count_char c (str_take b s).
Proof.
  destruct (decide (a ≤ b)) as [Hle|Hgt].
  - replace b with (a + (b - a)) at 2 by lia.
    rewrite str_take_add, count_char_app. lia.
  - replace (b - a) with 0 by lia. rewrite str_take_0. cbn. lia.
Qed.

(** Before the place where [find] finds a character, and everywhere when
    it finds none, the character does not occur. *)
Lemma find_from_first (c : ascii) (s : string) (i : Z) :
  (0 ≤ i)%Z →
  (find_from (String c EmptyString) s i = (-1)%Z → count_char c s = 0) ∧
  (find_from (String c EmptyString) s i ≠ (-1)%Z →
   count_char c
     (str_take (Z.to_nat (find_from (String c EmptyString) s i - i)) s) = 0).
Proof.
  revert i. induction s as [|c' s IH]; intros i Hi.
  - cbn. split; [done|]. by intros [].
  - cbn [find_from String.prefix].
    destruct (ascii_dec c c') as [<-|Hne].
    + assert (String.prefix "" s = true) as -> by by destruct s.
      split; [lia|]. intros _. by rewrite Z.sub_diag.
    + destruct (IH (i + 1)%Z ltac:(lia)) as [Hnone Hsome].
      assert (Ascii.eqb c' c = false) as Hneq
        by (apply Ascii.eqb_neq; congruence).
      split.
      * intros Hr. cbn [count_char]. rewrite Hneq. by rewrite Hnone.
      * intros Hr. specialize (Hsome Hr).
        destruct (find_from_range (String c EmptyString) s (i + 1))
          as [?|Hrange]; [done|].
        replace (Z.to_nat (find_from (String c "") s (i + 1) - i))
          with (S (Z.to_nat (find_from (String c "") s (i + 1) - (i + 1))))
          by lia.
        cbn [str_take count_char]. rewrite Hneq. by rewrite Hsome.
Qed.

(** A slice that ends no later than the first [c] holds no [c]. *)
Lemma slice_free (c : ascii) (s : string) (a b : Z) :
  (0 ≤ a)%Z → (0 ≤ b)%Z →
  (find (String c EmptyString) s ≠ (-1)%Z →
   b ≤ find (String c EmptyString) s)%Z →
  count_char c (slice s (Some a) (Some b)) = 0.
Proof.
  intros Ha Hb Hle. rewrite slice_nonneg by done.
  pose proof (count_seg c (Z.to_nat a) (Z.to_nat b) s) as Hseg.
  destruct (find_from_first c s 0 ltac:(done)) as [Hnone Hsome].
  fold (find (String c EmptyString) s) in Hnone, Hsome.
  destruct (decide (find (String c EmptyString) s = (-1)%Z)) as [Heq|Hne].
  - pose proof (count_take_le c (Z.to_nat b) s). specialize (Hnone Heq). lia.
  - specialize (Hsome Hne). rewrite Z.sub_0_r in Hsome.
    pose proof (count_take_mono c (Z.to_nat b)
                  (Z.to_nat (find (String c EmptyString) s)) s) as Hmono.
    specialize (Hle Hne). lia.
Qed.

(** A slice that begins where [find] found a character is empty or begins
    with that character. *)
Lemma slice_starts (c : ascii) (s : string) (b : Z) :
  find (String c EmptyString) s ≠ (-1)%Z → (0 ≤ b)%Z →
  slice s (Some (find (String c EmptyString) s)) (Some b) = EmptyString
  ∨ String.prefix (String c EmptyString)
      (slice s (Some (find (String c EmptyString) s)) (Some b)) = true.
Proof.
  intros Hfound Hb.
  destruct (find_range (String c EmptyString) s) as [?|Hrange]; [done|].
  pose proof (find_from_prefix (String c EmptyString) s 0 ltac:(done) Hfound)
    as Hpre.
  fold (find (String c EmptyString) s) in Hpre. rewrite Z.sub_0_r in Hpre.
  rewrite slice_nonneg by lia.
  destruct (str_drop _ s) as [|c' t]; [done|].
  cbn [String.prefix] in Hpre. destruct (ascii_dec c c') as [<-|]; [|done].
  destruct (_ - _) as [|n]; [by left | right].
  cbn [str_take String.prefix]. destruct (ascii_dec c c); [|done].
  by destruct (str_take n t).
Qed.

(** The components are well formed: the authority holds no "/", "?" or
    "#", the path no "?" or "#", the query no "#"; and the path, the query
    and the fragment are empty or begin with "/", "?" and "#". *)
Theorem analyze_url_components_shape (U U' : UrlDFA) (url : string)
    (comp : Components) :
  analyze_url_components url U = (U', Ok (Some comp)) →
  (count_char "/" (authority comp) = 0 ∧
   count_char "?" (authority comp) = 0 ∧
   count_char "#" (authority comp) = 0) ∧
  (count_char "?" (path comp) = 0 ∧ count_char "#" (path comp) = 0) ∧
  count_char "#" (query comp) = 0 ∧
  (path comp = EmptyString ∨ String.prefix "/" (path comp) = true) ∧
  (query comp = EmptyString ∨ String.prefix "?" (query comp) = true) ∧
  (fragment comp = EmptyString ∨ String.prefix "#" (fragment comp) = true).
Proof.
  intros (_ & _ & _ & -> & -> & -> & ->)%analyze_Some.
  set (rest := slice url (Some (find "://" url + 3)%Z) None).
  pose proof (find_range "/" rest) as Hp.
  pose proof (find_range "?" rest) as Hq.
  pose proof (find_range "#" rest) as Hf.
  pose proof (earliest_3 (find "/" rest) (find "?" rest) (find "#" rest)
                (len rest)) as HA.
  pose proof (earliest_2 (find "?" rest) (find "#" rest) (len rest)) as Hpe.
  cbn zeta in HA, Hpe.
  assert (0 ≤ len rest)%Z as HL by (unfold len; lia).
  rewrite slice_None_l, slice_None_r.
  repeat split.
  - apply slice_free; lia.
  - apply slice_free; lia.
  - apply slice_free; lia.
  - destruct (Z.eqb_spec (find "/" rest) (-1)); cbn [negb]; [done|].
    apply slice_free; lia.
  - destruct (Z.eqb_spec (find "/" rest) (-1)); cbn [negb]; [done|].
    apply slice_free; lia.
  - destruct (Z.eqb_spec (find "?" rest) (-1)); cbn [negb]; [done|].
    destruct (Z.eqb_spec (find "#" rest) (-1)); cbn [negb];
      apply slice_free; lia.
  - destruct (Z.eqb_spec (find "/" rest) (-1)); cbn [negb]; [by left|].
    apply slice_starts; [done | lia].
  - destruct (Z.eqb_spec (find "?" rest) (-1)); cbn [negb]; [by left|].
    apply slice_starts; [done|].
    destruct (Z.eqb_spec (find "#" rest) (-1)); cbn [negb]; lia.
  - destruct (Z.eqb_spec (find "#" rest) (-1)); cbn [negb]; [by left|].
    apply slice_starts; [done | lia].
Qed.

Lemma analyze_url_components_concat_witness :
  "https" +:+ "://" +:+ "example.com" +:+ "/path" +:+ "?q=1" +:+ "#frag"
  = "https://example.com/path?q=1#frag".
Proof.
  apply (analyze_url_components_concat UrlDFA_init
           (analyze_url_components "https://example.com/path?q=1#frag"
              UrlDFA_init).1
           "https://example.com/path?q=1#frag"
           (mkComponents "https" "example.com" "/path" "?q=1" "#frag")).
  apply injective_projections; [reflexivity | vm_compute; reflexivity].
Defined.

Lemma analyze_url_components_shape_witness :
  let comp := mkComponents "http" "a" "" "?x/y" "#z" in
  (count_char "/" (authority comp) = 0 ∧
   count_char "?" (authority comp) = 0 ∧
   count_char "#" (authority comp) = 0) ∧
  (count_char "?" (path comp) = 0 ∧ count_char "#" (path comp) = 0) ∧
  count_char "#" (query comp) = 0 ∧
  (path comp = EmptyString ∨ String.prefix "/" (path comp) = true) ∧
  (query comp = EmptyString ∨ String.prefix "?" (query comp) = true) ∧
  (fragment comp = EmptyString ∨ String.prefix "#" (fragment comp) = true).
Proof.
  intros comp.
  apply (analyze_url_components_shape UrlDFA_init
           (analyze_url_components "http://a?x/y#z" UrlDFA_init).1
           "http://a?x/y#z" comp).
  apply injective_projections; [reflexivity | vm_compute; reflexivity].
Defined.

(** A host has no "/", "?" or "#" for [find] to find. *)
Lemma host_chars_find (c : ascii) (host : string) (i : Z) :
  str_in (String c EmptyString) (alnum +:+ "-._") = false →
  host_chars host = true →
  find_from (String c EmptyString) host i = (-1)%Z.
Proof.
  intros Hc. revert i. induction host as [|c' host IH]; intros i; [done|].
  cbn [host_chars find_from String.prefix].
  intros [Hc' Hhost]%andb_prop.
  destruct (ascii_dec c c') as [<-|Hne]; [congruence|]. by apply IH.
Qed.

Lemma analyze_after_scheme (prefix sch host : string) (tr : list string)
    (n : nat) :
  (validate_url prefix UrlDFA_init).2 = Ok (false, tr) →
  last tr = Some "scheme_separator" → ("rejected" ∉ tr) →
  find "://" (prefix +:+ host) = Z.of_nat n →
  str_take n (prefix +:+ host) = sch →
  str_drop (n + 3) (prefix +:+ host) = host →
  host ≠ EmptyString → host_chars host = true →
  analyze_url_components (prefix +:+ host) UrlDFA_init
  = (UrlDFA_init,
     Ok (Some (mkComponents sch host EmptyString EmptyString EmptyString))).
Proof.
  intros Hrun Hlast Hnot Hfind Hsch Hrest Hne Hhost.
  unfold analyze_url_components, mbind, M_bind.
  rewrite (after_scheme prefix host tr) by done. cbn [negb].
  rewrite Hfind.
  destruct (Z.eqb_spec (Z.of_nat n) (-1)); [lia|]. cbn [negb].
  assert (slice (prefix +:+ host) None (Some (Z.of_nat n)) = sch) as ->.
  { rewrite slice_None_l, slice_nonneg by lia.
    change (Z.to_nat 0) with 0. cbn [str_drop].
    by rewrite Nat.sub_0_r, Nat2Z.id. }
  assert (slice (prefix +:+ host) (Some (Z.of_nat n + 3)%Z) None = host) as ->.
  { rewrite slice_None_r, slice_nonneg by (unfold len; lia).
    replace (Z.to_nat (Z.of_nat n + 3)) with (n + 3) by lia.
    rewrite Hrest. apply str_take_all.
    pose proof (length_str_drop (n + 3) (prefix +:+ host)) as Hl.
    rewrite Hrest in Hl. unfold len. lia. }
  unfold find. rewrite !host_chars_find by (done || (vm_compute; reflexivity)).
  cbn. by rewrite slice_None_l, slice_full.
Qed.

Lemma find_from_skip (sub s : string) (c : ascii) (i : Z) :
  String.prefix sub (String c s) = false →
  find_from sub (String c s) i = find_from sub s (i + 1)%Z.
Proof. intros Hpre. cbn [find_from]. by rewrite Hpre. Qed.

Lemma find_from_here (sub t : string) (i : Z) :
  find_from sub (sub +:+ t) i = i.
Proof.
  assert (String.prefix sub (sub +:+ t) = true) as Hpre.
  { induction sub as [|c sub IH]; [by destruct t|].
    change (String c sub +:+ t) with (String c (sub +:+ t)).
    cbn [String.prefix]. by destruct (ascii_dec c c). }
  destruct (sub +:+ t); cbn [find_from]; by rewrite Hpre.
Qed.

(** The components of "http://" or "https://" followed by a host (letters,
    digits, "-", "." and "_"): the scheme, the host as authority, and an
    empty path, query and fragment. *)
Theorem analyze_url_components_host (host : string) :
  host ≠ EmptyString → host_chars host = true →
  analyze_url_components ("http://" +:+ host) UrlDFA_init
  = (UrlDFA_init,
     Ok (Some (mkComponents "http" host EmptyString EmptyString EmptyString)))
  ∧
  analyze_url_components ("https://" +:+ host) UrlDFA_init
  = (UrlDFA_init,
     Ok (Some (mkComponents "https" host EmptyString EmptyString
                 EmptyString))).
Proof.
  intros Hne Hhost. split.
  - apply (analyze_after_scheme "http://" "http" host
             (["start"] ++ replicate 4 "scheme"
              ++ replicate 3 "scheme_separator") 4);
      [ vm_compute; reflexivity | reflexivity
      | apply (bool_decide_eq_false_1 _); vm_compute; reflexivity
      | | reflexivity | reflexivity | exact Hne | exact Hhost ].
    unfold find.
    change ("http://" +:+ host)
      with (String "h" (String "t" (String "t" (String "p"
              ("://" +:+ host))))).
    rewrite !find_from_skip by (vm_compute; reflexivity).
    by rewrite find_from_here.
  - apply (analyze_after_scheme "https://" "https" host
             (["start"] ++ replicate 5 "scheme"
              ++ replicate 3 "scheme_separator") 5);
      [ vm_compute; reflexivity | reflexivity
      | apply (bool_decide_eq_false_1 _); vm_compute; reflexivity
      | | reflexivity | reflexivity | exact Hne | exact Hhost ].
    unfold find.
    change ("https://" +:+ host)
      with (String "h" (String "t" (String "t" (String "p" (String "s"
              ("://" +:+ host)))))).
    rewrite !find_from_skip by (vm_compute; reflexivity).
    by rewrite find_from_here.
Qed.

Lemma analyze_url_components_host_witness :
  analyze_url_components "http://example.com" UrlDFA_init
  = (UrlDFA_init,
     Ok (Some (mkComponents "http" "example.com" EmptyString EmptyString
                 EmptyString)))
  ∧
  analyze_url_components "https://example.com" UrlDFA_init
  = (UrlDFA_init,
     Ok (Some (mkComponents "https" "example.com" EmptyString EmptyString
                 EmptyString))).
Proof.
  apply (analyze_url_components_host "example.com"); [discriminate|].
  vm_compute. reflexivity.
Defined.

(** ** [create_dfa_interactive] *)

Import dfa_simulator.
Import dfa_simulator_interactive.

(** A loop that returns has kept every invariant its body keeps. *)
Lemma for_in_io_inv {A B : Type} (I : list A → B → Prop)
    (body : A → B → IO B) (xs : list A) :
  (∀ seen x b c c' b',
     I seen b → body x b c = (c', Returned b') → I (seen ++ [x]) b') →
  ∀ seen b c c' r,
    I seen b → for_in_io xs body b c = (c', Returned r) → I (seen ++ xs) r.
Proof.
  intros Hbody. induction xs as [|x xs IH]; intros seen b c c' r HI.
  - cbn. intros [= _ <-]. by rewrite app_nil_r.
  - cbn [for_in_io]. unfold mbind, IO_bind.
    destruct (body x b c) as [c1 [b1|e]] eqn:Hx; [|done].
    intros Hrest. rewrite (assoc_L (++) seen [x] xs : seen ++ x :: xs = _).
    eapply IH; [|exact Hrest]. by eapply Hbody.
Qed.

Lemma ask_transition_Returned (states : gset string) (state symbol : string)
    (tf tf' : gmap (string * string) string) (c c' : console) :
  ask_transition states state symbol tf c = (c', Returned tf') →
  ∃ next_state,
    tf' = <[(state, symbol) := next_state]> tf ∧
    (next_state ∈ states ∨ next_state = "trap").
Proof.
  unfold ask_transition, mbind, IO_bind, input.
  destruct (stdin c) as [|line rest]; [done|].
  case_bool_decide.
  - intros [= _ <-]. eauto.
  - cbn. intros [= _ <-]. eauto.
Qed.

(** The inner loop, for one state: an entry is added for each symbol, and
    every entry added goes to a state or to "trap". *)
Lemma ask_symbols_Returned (states : gset string) (state : string)
    (symbols : list string) (tf tf' : gmap (string * string) string)
    (c c' : console) :
  for_in_io symbols (λ symbol tf, ask_transition states state symbol tf) tf c
  = (c', Returned tf') →
  (∀ k, is_Some (tf' !! k) ↔
        is_Some (tf !! k) ∨ (k.1 = state ∧ k.2 ∈ symbols)) ∧
  (∀ k v, tf' !! k = Some v →
          tf !! k = Some v ∨ v ∈ states ∨ v = "trap").
Proof.
  intros Hrun.
  refine (for_in_io_inv
            (λ seen t,
               (∀ k, is_Some (t !! k) ↔
                     is_Some (tf !! k) ∨ (k.1 = state ∧ k.2 ∈ seen)) ∧
               (∀ k v, t !! k = Some v →
                       tf !! k = Some v ∨ v ∈ states ∨ v = "trap"))
            _ symbols _ [] tf c c' tf' _ Hrun).
  - intros seen symbol t c1 c2 t' [Hdom Htgt]
      (next & -> & Hnext)%ask_transition_Returned.
    split.
    + intros [s y]. rewrite lookup_insert_is_Some, Hdom. cbn.
      rewrite elem_of_app, list_elem_of_singleton.
      destruct (decide ((state, symbol) = (s, y))) as [[= <- <-]|Hne].
      * split; auto.
      * split.
        -- intros [?|[_ [?|[-> ?]]]]; [done | auto..].
        -- intros [?|[-> [? | ->]]]; [auto | auto | done].
    + intros k v. rewrite lookup_insert_Some.
      intros [[<- <-]|[_ Hk]]; [tauto | by apply Htgt].
  - split; [|by left]. intros k. rewrite elem_of_nil. tauto.
Qed.

(** The two nested loops: an entry for every pair of a state and a symbol,
    each to a state or to "trap". *)
Lemma ask_all_Returned (states : gset string) (states_list symbols : list string)
    (tf tf' : gmap (string * string) string) (c c' : console) :
  for_in_io states_list (λ state tf,
    for_in_io symbols (λ symbol tf, ask_transition states state symbol tf) tf)
    tf c
  = (c', Returned tf') →
  (∀ k, is_Some (tf' !! k) ↔
        is_Some (tf !! k) ∨ (k.1 ∈ states_list ∧ k.2 ∈ symbols)) ∧
  (∀ k v, tf' !! k = Some v →
          tf !! k = Some v ∨ v ∈ states ∨ v = "trap").
Proof.
  intros Hrun.
  refine (for_in_io_inv
            (λ seen t,
               (∀ k, is_Some (t !! k) ↔
                     is_Some (tf !! k) ∨ (k.1 ∈ seen ∧ k.2 ∈ symbols)) ∧
               (∀ k v, t !! k = Some v →
                       tf !! k = Some v ∨ v ∈ states ∨ v = "trap"))
            _ states_list _ [] tf c c' tf' _ Hrun).
  - intros seen state t c1 c2 t' [Hdom Htgt]
      [Hdom' Htgt']%ask_symbols_Returned.
    split.
    + intros k. rewrite Hdom', Hdom, elem_of_app, list_elem_of_singleton.
      split.
      * intros [[?|[? ?]]|[? ?]]; auto.
      * intros [?|[[?|?] ?]]; auto.
    + intros k v [Hk|Hv]%Htgt'; [by apply Htgt | by right].
  - split; [|by left]. intros k. rewrite elem_of_nil. tauto.
Qed.

Lemma read_start_state_Returned (states : gset string) (lines out : list string)
    (c' : console) (start_state : string) :
  read_start_state states lines out = (c', Returned start_state) →
  start_state ∈ states.
Proof.
  revert out. induction lines as [|line rest IH]; intros out; [done|].
  cbn [read_start_state]. case_bool_decide; [by intros [= _ <-] | apply IH].
Qed.

(** What [create_dfa_interactive] has done when it returns an automaton. *)
Lemma create_dfa_interactive_Returned (c c' : console) (a : DFA) :
  create_dfa_interactive c = (c', Returned a) →
  ∃ states_input alphabet_input accept_input rest c1 c2,
    stdin c = states_input :: alphabet_input :: rest ∧
    states a = list_to_set (strip <$> split "," states_input) ∧
    alphabet a = list_to_set (strip <$> split "," alphabet_input) ∧
    for_in_io (elements (states a)) (λ state tf,
      for_in_io (elements (alphabet a)) (λ symbol tf,
        ask_transition (states a) state symbol tf) tf) ∅ c1
    = (c2, Returned (transition_function a)) ∧
    start_state a ∈ states a ∧
    accept_states a
    = (if bool_decide
            (list_to_set (strip <$> split "," accept_input) ⊆ states a)
       then list_to_set (strip <$> split "," accept_input)
       else list_to_set (strip <$> split "," accept_input) ∩ states a).
Proof.
  unfold create_dfa_interactive, mbind, IO_bind.
  unfold print at 1. unfold input at 1. cbn [stdin stdout].
  destruct (stdin c) as [|states_input lines]; [done|].
  unfold input at 1. cbn [stdin stdout].
  destruct lines as [|alphabet_input rest]; [done|].
  unfold print at 1. cbn [stdin stdout].
  match goal with
  | |- context [for_in_io ?xs ?body ?b ?c1] =>
      destruct (for_in_io xs body b c1) as [c2 [tf|e]] eqn:Htf; [|done]
  end.
  destruct (read_start_state _ (stdin c2) (stdout c2))
    as [c3 [start|e]] eqn:Hstart; [|done].
  unfold input at 1.
  destruct (stdin c3) as [|accept_input lines3]; [done|].
  case_bool_decide as Hsub; cbn [negb].
  - unfold call, DFA_init. cbn. intros [= _ <-].
    eexists _, _, accept_input, _, _, _. cbn.
    split; [done|]. split; [done|]. split; [done|]. split; [exact Htf|].
    split; [by eapply read_start_state_Returned|].
    by rewrite bool_decide_true.
  - unfold call, DFA_init, print. cbn. intros [= _ <-].
    eexists _, _, accept_input, _, _, _. cbn.
    split; [done|]. split; [done|]. split; [done|]. split; [exact Htf|].
    split; [by eapply read_start_state_Returned|].
    by rewrite bool_decide_false.
Qed.

Lemma names_nonempty (line : string) :
  (list_to_set (strip <$> split "," line) : gset string) ≠ ∅.
Proof.
  pose proof (length_split "," line) as Hlen.
  destruct (split "," line) as [|piece pieces]; [done|].
  intros Hempty. apply (not_elem_of_empty (C := gset string) (strip piece)).
  rewrite <- Hempty. apply elem_of_list_to_set. left.
Qed.

(** The automaton [create_dfa_interactive] returns has its start state and
    its accept states among its states, and neither its set of states nor
    its alphabet is empty (an empty line gives the empty name). *)
Theorem create_dfa_interactive_sets (c c' : console) (a : DFA) :
  create_dfa_interactive c = (c', Returned a) →
  start_state a ∈ states a ∧ accept_states a ⊆ states a ∧
  states a ≠ ∅ ∧ alphabet a ≠ ∅.
Proof.
  intros (si & ai & ci & rest & c1 & c2 & _ & Hst & Hal & _ & Hstart & Hacc)
    %create_dfa_interactive_Returned.
  split; [done|]. split; [|split].
  - rewrite Hacc. case_bool_decide; [done | apply intersection_subseteq_r].
  - rewrite Hst. by apply names_nonempty.
  - rewrite Hal. by apply names_nonempty.
Qed.

Lemma create_dfa_interactive_sets_witness :
  let a := mkDFA {["q0"; "q1"]} {["a"]}
             {[ ("q1", "a") := "q1"; ("q0", "a") := "trap" ]} "q0" {["q1"]} in
  start_state a ∈ states a ∧ accept_states a ⊆ states a ∧
  states a ≠ ∅ ∧ alphabet a ≠ ∅.
Proof.
  intros a.
  apply (create_dfa_interactive_sets
           (mkConsole ["q0, q1"; "a"; "q1"; "zz"; "q0"; "q1"] [])
           (create_dfa_interactive
              (mkConsole ["q0, q1"; "a"; "q1"; "zz"; "q0"; "q1"] [])).1
           a).
  apply injective_projections; [reflexivity | vm_compute; reflexivity].
Defined.

(** The transition dictionary [create_dfa_interactive] builds has an entry
    exactly for the pairs of a state and a symbol, and every entry goes to
    a state or to "trap"; so the automaton satisfies the four invariants
    exactly when "trap", if some entry goes there, is one of the states. *)
Theorem create_dfa_interactive_table (c c' : console) (a : DFA) :
  create_dfa_interactive c = (c', Returned a) →
  (∀ state symbol,
     is_Some (transition_function a !! (state, symbol)) ↔
     state ∈ states a ∧ symbol ∈ alphabet a) ∧
  (∀ k next_state,
     transition_function a !! k = Some next_state →
     next_state ∈ states a ∨ next_state = "trap") ∧
  (structurally_valid a ↔
   ∀ k, transition_function a !! k = Some "trap" → "trap" ∈ states a).
Proof.
  intros (si & ai & ci & rest & c1 & c2 & _ & _ & _ & Htf & Hstart & Hacc')
    %create_dfa_interactive_Returned.
  assert (accept_states a ⊆ states a) as Hacc.
  { rewrite Hacc'. case_bool_decide; [done | apply intersection_subseteq_r]. }
  apply ask_all_Returned in Htf as [Hdom Htgt].
  assert (∀ state symbol,
            is_Some (transition_function a !! (state, symbol)) ↔
            state ∈ states a ∧ symbol ∈ alphabet a) as Hdom'.
  { intros state symbol. rewrite Hdom, lookup_empty, !elem_of_elements. cbn.
    split; [intros [[? [=]]|?]; done | by right]. }
  assert (∀ k next_state,
            transition_function a !! k = Some next_state →
            next_state ∈ states a ∨ next_state = "trap") as Htgt'.
  { intros k v [Hk|Hv]%Htgt; [by rewrite lookup_empty in Hk | done]. }
  split; [done|]. split; [done|]. split.
  - intros (_ & _ & Hvalid) [state symbol] Hk.
    by apply Hvalid in Hk as (_ & _ & ?).
  - intros Htrap. split; [done|]. split; [done|].
    intros state symbol next Hk.
    assert (state ∈ states a ∧ symbol ∈ alphabet a) as [? ?]
      by (apply Hdom'; eauto).
    split; [done|]. split; [done|].
    destruct (Htgt' _ _ Hk) as [?| ->]; [done | by eapply Htrap].
Qed.

Lemma create_dfa_interactive_table_witness :
  let a := mkDFA {["q0"; "q1"]} {["a"]}
             {[ ("q1", "a") := "q1"; ("q0", "a") := "trap" ]} "q0" {["q1"]} in
  (∀ state symbol,
     is_Some (transition_function a !! (state, symbol)) ↔
     state ∈ states a ∧ symbol ∈ alphabet a) ∧
  (∀ k next_state,
     transition_function a !! k = Some next_state →
     next_state ∈ states a ∨ next_state = "trap") ∧
  (structurally_valid a ↔
   ∀ k, transition_function a !! k = Some "trap" → "trap" ∈ states a).
Proof.
  intros a.
  apply (create_dfa_interactive_table
           (mkConsole ["q0, q1"; "a"; "q1"; "zz"; "q0"; "q1"] [])
           (create_dfa_interactive
              (mkConsole ["q0, q1"; "a"; "q1"; "zz"; "q0"; "q1"] [])).1
           a).
  apply injective_projections; [reflexivity | vm_compute; reflexivity].
Defined.

Lemma split_comma_free_pieces (s : string) :
  Forall (λ piece, comma_free piece = true) (split "," s).
Proof.
  induction s as [|c s IH]; cbn [split]; [by repeat constructor|].
  destruct (Ascii.eqb c ",") eqn:Hc; [by constructor|].
  destruct (split "," s) as [|w ws].
  { constructor; [|constructor]. cbn [comma_free]. by rewrite Hc. }
  apply Forall_cons in IH as [Hw Hws]. constructor; [|done].
  cbn [comma_free]. by rewrite Hc, Hw.
Qed.

Lemma comma_free_lstrip (s : string) :
  comma_free s = true → comma_free (lstrip s) = true.
Proof.
  induction s as [|c s IH]; [done|]. cbn [lstrip comma_free].
  intros [Hc Hs]%andb_prop. destruct (is_space c); [by apply IH|].
  cbn [comma_free]. by rewrite Hc, Hs.
Qed.

Lemma comma_free_rstrip (s : string) :
  comma_free s = true → comma_free (rstrip s) = true.
Proof.
  induction s as [|c s IH]; [done|]. cbn [rstrip comma_free].
  intros [Hc Hs]%andb_prop. specialize (IH Hs).
  destruct (rstrip s) as [|c' r].
  - destruct (is_space c); [done|]. cbn [comma_free]. by rewrite Hc.
  - cbn [comma_free] in *. by rewrite Hc, IH.
Qed.

(** The names read from a comma-separated line hold no ",". *)
Lemma names_comma_free (line name : string) :
  name ∈ (list_to_set (strip <$> split "," line) : gset string) →
  comma_free name = true.
Proof.
  rewrite elem_of_list_to_set, list_elem_of_fmap.
  intros (piece & -> & Hpiece).
  pose proof (split_comma_free_pieces line) as Hall.
  rewrite Forall_forall in Hall.
  by apply comma_free_rstrip, comma_free_lstrip, Hall.
Qed.

(** An automaton made by [create_dfa_interactive] is read back as it was
    saved: its states and symbols come from comma-separated lines, so the
    composite keys are split where they were joined. *)
Theorem create_dfa_interactive_round_trip (c c' : console) (a : DFA)
    (filename : string) (files : gmap string Document) :
  create_dfa_interactive c = (c', Returned a) →
  decode (encode a) = Ok a ∧
  (load_from_file filename (save_to_file filename (a, files)).1.2).2 = Ok a.
Proof.
  intros (si & ai & ci & rest & c1 & c2 & _ & Hst & Hal & Htf & _)
    %create_dfa_interactive_Returned.
  apply ask_all_Returned in Htf as [Hdom _].
  rewrite load_after_save.
  assert (decode (encode a) = Ok a) as ->; [|done].
  apply decode_encode. intros state symbol Hk.
  apply Hdom in Hk as [[? Hk]|[Hs Hy]]; [by rewrite lookup_empty in Hk|].
  cbn in Hs, Hy. rewrite elem_of_elements in Hs, Hy.
  rewrite Hst in Hs. rewrite Hal in Hy.
  split; by eapply names_comma_free.
Qed.

Lemma create_dfa_interactive_round_trip_witness :
  let a := mkDFA {["q0"; "q1"]} {["a"]}
             {[ ("q1", "a") := "q1"; ("q0", "a") := "trap" ]} "q0" {["q1"]} in
  decode (encode a) = Ok a ∧
  (load_from_file "dfa.json" (save_to_file "dfa.json" (a, ∅)).1.2).2 = Ok a.
Proof.
  intros a.
  apply (create_dfa_interactive_round_trip
           (mkConsole ["q0, q1"; "a"; "q1"; "zz"; "q0"; "q1"] [])
           (create_dfa_interactive
              (mkConsole ["q0, q1"; "a"; "q1"; "zz"; "q0"; "q1"] [])).1
           a "dfa.json" ∅).
  apply injective_projections; [reflexivity | vm_compute; reflexivity].
Defined.
